(** * The screenshot processor of the vault organiser

    A shallow embedding of [scripts/tweet-processor/process-tweets.js]
    (the current generation of the script) and the properties of its
    pipeline: scanning, routing, file naming, note formatting, logging,
    marking and the batch loop.

    Conventions of the embedding.
    - A JavaScript string is a [string]: the sequence of its UTF-8 bytes.
      Every literal the script compares against is ASCII, and a non-ASCII
      character is made of bytes above 127 only, so the ASCII character
      classes of the script's regular expressions select the same
      characters on bytes as on UTF-16 code units.  Where the script
      takes an index into text that need not be ASCII (the splice of
      the log), the index counts UTF-16 code units: [units],
      [slice_units].
    - A JavaScript number that is only compared (confidence, relevance,
      thresholds) is the rational it denotes, a [Q]; counts are [Z].
    - A function that can throw returns a [result]; a function that also
      touches the file system or the in-memory processed set runs in the
      monad [M], whose state survives a throw, as in JavaScript.
    - What the external services answer (the vision model, the search
      engine) is an input of the model: the record [World]. *)

From Stdlib Require Import QArith Ascii String.
From stdpp Require Import gmap strings list pretty.
Close Scope Q_scope.
Set Warnings "-register-all".

(** ** JavaScript string primitives *)

Module JsString.

(** The class [[a-z0-9]] of the sanitising regular expression. *)
Definition is_az09 (c : ascii) : bool :=
  let n := nat_of_ascii c in
  ((97 <=? n) && (n <=? 122)) || ((48 <=? n) && (n <=? 57)).

Definition is_upper (c : ascii) : bool :=
  let n := nat_of_ascii c in (65 <=? n) && (n <=? 90).

Definition lower_ascii (c : ascii) : ascii :=
  if is_upper c then ascii_of_nat (nat_of_ascii c + 32) else c.

Definition byte_is (n : nat) (c : ascii) : bool := nat_of_ascii c =? n.

(** [String.prototype.toLowerCase] on the UTF-8 bytes.  ASCII capitals
    are lowered.  Two characters outside ASCII lower-case to text that
    contains an ASCII letter and are mapped as JavaScript maps them:
    U+0130 (bytes C4 B0) to [i] followed by U+0307 (bytes CC 87), and the
    Kelvin sign U+212A (bytes E2 84 AA) to [k].  Every other non-ASCII
    character lower-cases to a non-ASCII character; its bytes are kept,
    which the script cannot tell apart: all of them are outside
    [[a-z0-9]] before and after. *)
Fixpoint toLowerCase (s : string) : string :=
  match s with
  | EmptyString => EmptyString
  | String c r =>
    match r with
    | String c2 r2 =>
      if byte_is 196 c && byte_is 176 c2
      then String "i" (String (ascii_of_nat 204) (String (ascii_of_nat 135) (toLowerCase r2)))
      else
        match r2 with
        | String c3 r3 =>
          if byte_is 226 c && byte_is 132 c2 && byte_is 170 c3
          then String "k" (toLowerCase r3)
          else String (lower_ascii c) (toLowerCase r)
        | EmptyString => String (lower_ascii c) (toLowerCase r)
        end
    | EmptyString => String (lower_ascii c) EmptyString
    end
  end.

(** [s.replace(/[^a-z0-9]+/g, '-')]: scanning from the left, each maximal
    run of characters outside the class is one match and becomes one
    hyphen.  [in_run] tells that the scan is inside a match. *)
Fixpoint replace_runs_from (in_run : bool) (s : string) : string :=
  match s with
  | EmptyString => EmptyString
  | String c r =>
    if is_az09 c then String c (replace_runs_from false r)
    else if in_run then replace_runs_from true r
    else String "-" (replace_runs_from true r)
  end.

Definition replace_nonalnum_runs (s : string) : string :=
  replace_runs_from false s.

Definition is_hyphen (c : ascii) : bool := byte_is 45 c.

(** [s.replace(/^-|-$/g, '')]: the first alternative matches one hyphen
    at index 0, the second one hyphen at the last index; a match of the
    first alternative is consumed before the second is tried. *)
Definition strip_leading_hyphen (s : string) : string :=
  match s with
  | String c r => if is_hyphen c then r else s
  | EmptyString => EmptyString
  end.

Fixpoint strip_trailing_hyphen (s : string) : string :=
  match s with
  | EmptyString => EmptyString
  | String c r =>
    match r with
    | EmptyString => if is_hyphen c then EmptyString else s
    | String _ _ => String c (strip_trailing_hyphen r)
    end
  end.

Definition replace_edge_hyphens (s : string) : string :=
  strip_trailing_hyphen (strip_leading_hyphen s).

(** [s.substring(0, n)]. *)
Definition substring_0 (n : nat) (s : string) : string := String.substring 0 n s.

(** [f] ends with [suffix], ASCII letters compared without case: the
    test of a regular expression [/suffix$/i] whose letters are ASCII. *)
Fixpoint lower_ascii_all (s : string) : string :=
  match s with
  | EmptyString => EmptyString
  | String c r => String (lower_ascii c) (lower_ascii_all r)
  end.

Definition ends_with_ci (suffix f : string) : bool :=
  let ls := String.length suffix in
  let lf := String.length f in
  (ls <=? lf) &&
  bool_decide (lower_ascii_all (String.substring (lf - ls) ls f) = suffix).

End JsString.
Import JsString.

(** [haystack.indexOf(needle)]: the index of the first occurrence, or -1. *)
Fixpoint indexOf (needle haystack : string) : Z :=
  if String.prefix needle haystack then 0%Z
  else
    match haystack with
    | EmptyString => (-1)%Z
    | String _ r =>
      let i := indexOf needle r in
      if (i <? 0)%Z then (-1)%Z else (i + 1)%Z
    end.

(** [s.slice(0, n)] and [s.slice(n)] for an index [n] that is not negative. *)
Fixpoint slice_to (n : nat) (s : string) : string :=
  match n, s with
  | S n', String c r => String c (slice_to n' r)
  | _, _ => EmptyString
  end.

Fixpoint slice_from (n : nat) (s : string) : string :=
  match n, s with
  | S n', String _ r => slice_from n' r
  | _, _ => s
  end.

(** *** UTF-16 code units

    [indexOf] and [slice] of JavaScript count UTF-16 code units, not
    bytes.  A character of one, two or three bytes is one code unit; a
    character of four bytes is a surrogate pair, two code units.  A
    continuation byte ([10xxxxxx]) belongs to the character before it. *)

Definition is_continuation (c : ascii) : bool :=
  (128 <=? nat_of_ascii c) && (nat_of_ascii c <? 192).

Definition is_astral_lead (c : ascii) : bool := 240 <=? nat_of_ascii c.

(** The length of [s] in code units. *)
Fixpoint units (s : string) : nat :=
  match s with
  | EmptyString => 0
  | String c r =>
    (if is_continuation c then 0 else if is_astral_lead c then 2 else 1) + units r
  end.

(** [haystack.indexOf(needle)] as JavaScript counts it: the code units
    before the first occurrence, or -1. *)
Definition indexOf_units (needle haystack : string) : Z :=
  let i := indexOf needle haystack in
  if (i <? 0)%Z then (-1)%Z else Z.of_nat (units (slice_to (Z.to_nat i) haystack)).

(** U+FFFD, which the UTF-8 encoder writes for half a surrogate pair. *)
Definition replacement : string :=
  String (ascii_of_nat 239) (String (ascii_of_nat 191) (String (ascii_of_nat 189) "")).

Fixpoint skip_continuation (s : string) : string :=
  match s with
  | EmptyString => EmptyString
  | String c r => if is_continuation c then skip_continuation r else s
  end.

(** [(s.slice(0, n), s.slice(n))] for an index [n] in code units, each
    part as the bytes that are written for it when it is followed,
    respectively preceded, by other text: a slice that cuts a
    surrogate pair leaves half of it on either side, and each half is
    written as U+FFFD.  [inside] tells that the bytes before belong to
    a character whose continuation bytes are still to come. *)
Fixpoint slice_units (inside : bool) (n : nat) (s : string) : string * string :=
  match s with
  | EmptyString => (EmptyString, EmptyString)
  | String c r =>
    if is_continuation c then
      if inside || (0 <? n) then
        let '(a, b) := slice_units inside n r in (String c a, b)
      else (EmptyString, s)
    else
      match n with
      | O => (EmptyString, s)
      | S n' =>
        if is_astral_lead c then
          match n' with
          | O => (replacement, replacement +:+ skip_continuation r)
          | S n'' => let '(a, b) := slice_units true n'' r in (String c a, b)
          end
        else
          let '(a, b) := slice_units (128 <=? nat_of_ascii c) n' r in (String c a, b)
      end
  end.

(** [parts.join(sep)]. *)
Definition join (sep : string) (parts : list string) : string :=
  String.concat sep parts.

(** [iso.split('T')[[0]]]: the text before the first [T]. *)
Fixpoint before_T (s : string) : string :=
  match s with
  | EmptyString => EmptyString
  | String c r => if byte_is 84 c then EmptyString else String c (before_T r)
  end.

Definition nl : string := String (ascii_of_nat 10) EmptyString.
Definition dq : string := String (ascii_of_nat 34) EmptyString.

(** [path.join(a, b)] for components that need no normalisation: one
    slash between them.  [Path.join] below is [path.join] with its
    normalisation, and [join_plain] shows that the two agree on such
    components. *)
Definition path_join (a b : string) : string := a +:+ "/" +:+ b.

(** The directory part of a path: the text before its last [/]. *)
Fixpoint dirname (p : string) : string :=
  match p with
  | EmptyString => EmptyString
  | String c r =>
    if bool_decide (0 <= indexOf "/" r)%Z then String c (dirname r) else EmptyString
  end.

(** ** Values, results and the state monad *)

(** What a call gives: a value, or a thrown error with its message. *)
Inductive result (A : Type) : Type :=
  | Ok (a : A)
  | Throw (msg : string).
Arguments Ok {A} a.
Arguments Throw {A} msg.

(** A value read from JSON text. *)
Inductive json : Type :=
  | JNull
  | JBool (b : bool)
  | JNum (q : Q)
  | JStr (s : string)
  | JArr (items : list json)
  | JObj (fields : list (string * json)).

(** JavaScript truthiness of a JSON value. *)
Definition truthy (v : json) : bool :=
  match v with
  | JNull => false
  | JBool b => b
  | JNum q => negb (Qeq_bool q 0)
  | JStr s => negb (bool_decide (s = EmptyString))
  | JArr _ => true
  | JObj _ => true
  end.

(** [!o[[k]]] on an object that came from [{}] or [JSON.parse]: a missing
    key reads [undefined].  No key the scanner asks for (it ends in an
    image extension) names a property inherited from [Object.prototype]. *)
Definition falsy_at (o : gmap string json) (k : string) : bool :=
  match o !! k with
  | Some v => negb (truthy v)
  | None => true
  end.

(** A count that the vision model read off the picture: the prompt asks
    for a number or null; a missing key and a text are possible too. *)
Inductive jsval : Type :=
  | Undefined
  | Null
  | Num (n : Z)
  | Str (s : string).

Definition jsval_truthy (v : jsval) : bool :=
  match v with
  | Undefined => false
  | Null => false
  | Num n => negb (n =? 0)%Z
  | Str s => negb (bool_decide (s = EmptyString))
  end.

(** [`${v}`]; a count is printed in full, as JavaScript prints an
    integer below 10^21. *)
Definition jsval_show (v : jsval) : string :=
  match v with
  | Undefined => "undefined"
  | Null => "null"
  | Num n => pretty n
  | Str s => s
  end.

(** [`${s}`] for a property that may be missing. *)
Definition show_opt (s : option string) : string := default "undefined" s.

(** [s || d] for a string property that may be missing. *)
Definition or_default (s : option string) (d : string) : string :=
  match s with
  | Some x => if bool_decide (x = EmptyString) then d else x
  | None => d
  end.

(** The file system the script sees: the text of each file, the set of
    directories, and the paths on which a write is refused. *)
Record FS : Type := mkFS {
  files : gmap string string;
  dirs : gset string;
  denied : gset string
}.

(** The state a run threads: the file system, the in-memory processed
    set [processedScreenshots], and how often the clock has been read. *)
Record State : Type := mkState {
  fs : FS;
  processedScreenshots : gmap string json;
  ticks : nat
}.

Definition M (A : Type) : Type := State -> result A * State.

Definition ret {A} (a : A) : M A := fun st => (Ok a, st).
Definition throw {A} (msg : string) : M A := fun st => (Throw msg, st).
Definition bind {A B} (m : M A) (k : A -> M B) : M B :=
  fun st =>
    match m st with
    | (Ok a, st') => k a st'
    | (Throw e, st') => (Throw e, st')
    end.
(** [try { m } catch (e) { h(e) }]: what [m] did to the state stays. *)
Definition try_catch {A} (m : M A) (h : string -> M A) : M A :=
  fun st =>
    match m st with
    | (Ok a, st') => (Ok a, st')
    | (Throw e, st') => h e st'
    end.
Definition lift {A} (r : result A) : M A := fun st => (r, st).
Definition get_state : M State := fun st => (Ok st, st).

Notation "'do' x <- m ; k" := (bind m (fun x => k))
  (at level 10, x name, m at level 100, k at level 200).
Notation "'do_' m ; k" := (bind m (fun _ => k))
  (at level 10, m at level 100, k at level 200).

(** *** File system calls *)

Definition existsSync (p : string) : M bool :=
  fun st => (Ok (bool_decide (is_Some (files (fs st) !! p)) || bool_decide (p ∈ dirs (fs st))), st).

(** The directories above [p]: the prefixes of [p] that end before a
    [/], the shortest first.  The empty prefix, which stands for the
    root or the working directory, is left out. *)
Fixpoint prefixes_before_slash (p : string) : list string :=
  match p with
  | EmptyString => []
  | String c r =>
    (if byte_is 47 c then [EmptyString] else [])
    ++ map (String c) (prefixes_before_slash r)
  end.

Definition ancestors (p : string) : list string :=
  filter (fun a => a <> EmptyString) (prefixes_before_slash p).

(** [fs.mkdirSync(p, { recursive: true })]: nothing to do when [p] is a
    directory; refused when a directory above [p] is a file, when [p]
    is a file, and when [p] or a missing directory above it may not be
    created; otherwise [p] is created together with every missing
    directory above it. *)
Definition mkdirSync (p : string) : M unit :=
  fun st =>
    let f := fs st in
    if bool_decide (p ∈ dirs f) then (Ok tt, st)
    else if bool_decide (Exists (fun a => is_Some (files f !! a)) (ancestors p))
    then (Throw "ENOTDIR", st)
    else if bool_decide (is_Some (files f !! p)) then (Throw "EEXIST", st)
    else if bool_decide (p ∈ denied f) then (Throw "EACCES", st)
    else if bool_decide (Exists (fun a => a ∈ denied f /\ a ∉ dirs f) (ancestors p))
    then (Throw "EACCES", st)
    else (Ok tt, mkState (mkFS (files f)
                               ({[p]} ∪ list_to_set (ancestors p) ∪ dirs f)
                               (denied f))
                         (processedScreenshots st) (ticks st)).

(** [fs.writeFileSync(p, content)]: refused on a denied path, on a
    directory, and when the directory of [p] does not exist. *)
Definition writeFileSync (p content : string) : M unit :=
  fun st =>
    let f := fs st in
    if bool_decide (p ∈ denied f) then (Throw "EACCES", st)
    else if bool_decide (p ∈ dirs f) then (Throw "EISDIR", st)
    else if bool_decide (dirname p ∉ dirs f) then (Throw "ENOENT", st)
    else (Ok tt, mkState (mkFS (<[p:=content]> (files f)) (dirs f) (denied f))
                         (processedScreenshots st) (ticks st)).

Definition readFileSync (p : string) : M string :=
  fun st =>
    match files (fs st) !! p with
    | Some c => (Ok c, st)
    | None => (Throw "ENOENT", st)
    end.

(** The name of [k] inside directory [d], when [k] is an entry of [d]. *)
Definition entry_name (d k : string) : option string :=
  let pre := d +:+ "/" in
  if String.prefix pre k then
    let name := slice_from (String.length pre) k in
    if bool_decide (name = EmptyString) || bool_decide (0 <= indexOf "/" name)%Z
    then None else Some name
  else None.

(** [fs.readdirSync(d)]: the entries of [d], in the order of the store. *)
Definition readdirSync (d : string) : M (list string) :=
  fun st =>
    let f := fs st in
    if bool_decide (d ∈ dirs f)
    then (Ok (omap (entry_name d) ((map_to_list (files f)).*1 ++ elements (dirs f))), st)
    else (Throw "ENOTDIR", st).

(** [new Date().toISOString()]: the [n]-th reading of the clock. *)
Definition now (isoTime : nat -> string) : M string :=
  fun st => (Ok (isoTime (ticks st)),
             mkState (fs st) (processedScreenshots st) (S (ticks st))).

(** ** Configuration and data *)

(** The doubles that the literals 0.7, 0.8, 0.6 and 0.5 denote. *)
Definition double_0_7 : Q := 3152519739159347 # 4503599627370496.
Definition double_0_8 : Q := 3602879701896397 # 4503599627370496.
Definition double_0_6 : Q := 5404319552844595 # 9007199254740992.
Definition double_0_5 : Q := 1 # 2.

(** [CONFIG]: the fields that the environment and the command line set.
    [scriptDir] is [__dirname]. *)
Record Config : Type := mkConfig {
  vaultPath : string;
  scriptDir : string;
  confidenceThreshold : Q;
  aiProvider : string;
  dryRun : bool;
  enableAutoResearch : bool;
  researchRelevanceThreshold : Q
}.

(** [CONFIG]: the fields that are literals. *)
Definition screenshotsDir : string := "Attachments/Xeets".
Definition resourcesDir : string := "03 - Resources/X Insights".
Definition projectsDir : string := "01 - Projects/Ideas".
Definition unsureDir : string := "00 - Inbox/Xeets to Review".
Definition logFile : string := "00 - Inbox/Xeet Processing Log.md".
Definition processedMarkerFile : string := ".processed-xeets.json".

(** [parseFloat(text) || d]: [None] is NaN. *)
Definition parsed_or (parsed : option Q) (d : Q) : Q :=
  match parsed with
  | Some q => if Qeq_bool q 0 then d else q
  | None => d
  end.

Definition confidenceThreshold_of_env (parsed : option Q) : Q :=
  parsed_or parsed double_0_7.

Definition processedFile (cfg : Config) : string :=
  path_join (scriptDir cfg) processedMarkerFile.

Record Engagement : Type := mkEngagement {
  likes : jsval;
  retweets : jsval;
  replies : jsval
}.

(** The object that [analyzeScreenshot] parses out of the model's answer.
    The script does not validate it: a property whose absence makes the
    script throw is an [option], [None] when missing. *)
Record TweetData : Type := mkTweetData {
  author : string;
  authorName : string;
  date : option string;
  text : string;
  hasImages : bool;
  hasThread : bool;
  engagement : option Engagement;
  category : string;
  confidence : option Q;
  tags : option (list string);
  summary : string;
  title : option string;
  relevance : string
}.

Record Screenshot : Type := mkScreenshot {
  filename : string;
  fullPath : string;
  relativePath : string
}.

(** One item of the web search. *)
Record RawResult : Type := mkRawResult {
  r_title : string;
  r_url : string;
  r_snippet : string
}.

(** One entry of the relevance filter's answer. *)
Record FilterEntry : Type := mkFilterEntry {
  fe_index : Z;
  fe_relevance : option Q;
  fe_reason : option string;
  fe_summary : option string
}.

(** A search result after filtering; a property is [None] when the
    object does not have it. *)
Record Enriched : Type := mkEnriched {
  e_title : option string;
  e_url : option string;
  e_snippet : option string;
  e_relevance : option Q;
  e_reason : option string;
  e_summary : option string
}.

Record ResearchData : Type := mkResearchData {
  query : string;
  results : list Enriched
}.

Record SaveResult : Type := mkSaveResult {
  saved : bool;
  path : option string
}.

Record Counters : Type := mkCounters {
  processed : nat;
  failed : nat
}.

(** What lies outside the script: the answers of the services, the
    clock, and the JavaScript built-ins whose text output no property
    here depends on. *)
Record World : Type := mkWorld {
  (** reading the image, the vision call and [JSON.parse] of its answer *)
  vision_reply : string -> result TweetData;
  (** the query-generation call, trimmed and unquoted *)
  query_reply : TweetData -> result string;
  (** the web search *)
  search_reply : string -> result (list RawResult);
  (** the filtering call and [JSON.parse] of its answer; [Ok None] is an
      answer whose [results] is not an array *)
  filter_reply : list RawResult -> TweetData -> result (option (list FilterEntry));
  isoTime : nat -> string;
  (** [`${x}`] and [(x * 100).toFixed(0)] for a number [x] *)
  number_toString : Q -> string;
  percent_toFixed0 : Q -> string;
  JSON_stringify_tags : option (list string) -> string;
  JSON_stringify_store : gmap string json -> string;
  JSON_parse_store : string -> result (gmap string json);
  basename_md : string -> string
}.

(** ** The pipeline *)

(** The start of the script: load the processed set when its file exists. *)
Definition loadProcessed (w : World) (cfg : Config) (f : FS) : result (gmap string json) :=
  match files f !! processedFile cfg with
  | Some content => JSON_parse_store w content
  | None => if bool_decide (processedFile cfg ∈ dirs f) then Throw "EISDIR" else Ok ∅
  end.

(** [/\.(png|jpg|jpeg)$/i.test(f)]. *)
Definition is_image (f : string) : bool :=
  ends_with_ci ".png" f || ends_with_ci ".jpg" f || ends_with_ci ".jpeg" f.

Definition findNewScreenshots (cfg : Config) : M (list Screenshot) :=
  let screenshotsPath := path_join (vaultPath cfg) screenshotsDir in
  do there <- existsSync screenshotsPath;
  if negb there then
    do_ mkdirSync screenshotsPath;
    ret []
  else
    do entries <- readdirSync screenshotsPath;
    do st <- get_state;
    let imageFiles :=
      filter (fun f => is_image f && falsy_at (processedScreenshots st) f = true) entries in
    ret (map (fun f => mkScreenshot f (path_join screenshotsPath f)
                                    (path_join screenshotsDir f)) imageFiles).

Definition analyzeScreenshot (w : World) (imagePath : string) : M TweetData :=
  lift (vision_reply w imagePath).

Definition rbind {A B} (r : result A) (k : A -> result B) : result B :=
  match r with
  | Ok a => k a
  | Throw e => Throw e
  end.

(** [tweetData.tags.join(', ')]: throws when [tags] is missing. *)
Definition tags_joined (td : TweetData) : result string :=
  match tags td with
  | Some ts => Ok (join ", " ts)
  | None => Throw "TypeError"
  end.

Definition generateSearchQuery (w : World) (td : TweetData) : result string :=
  rbind (tags_joined td) (fun _ => query_reply w td).

Definition performWebSearch (w : World) (q : string) : result (list RawResult) :=
  search_reply w q.

(** [r.relevance >= threshold]; a missing relevance compares false. *)
Definition relevance_at_least (threshold : Q) (r : option Q) : bool :=
  match r with
  | Some q => Qle_bool threshold q
  | None => false
  end.

(** [searchResults[[i - 1]]]. *)
Definition result_at (searchResults : list RawResult) (i : Z) : option RawResult :=
  if (1 <=? i)%Z then searchResults !! Z.to_nat (i - 1) else None.

(** [{ ...searchResults[[r.index - 1]], relevance, reason, summary }]. *)
Definition enrich (searchResults : list RawResult) (r : FilterEntry) : Enriched :=
  let raw := result_at searchResults (fe_index r) in
  mkEnriched (r_title <$> raw) (r_url <$> raw) (r_snippet <$> raw)
             (fe_relevance r) (fe_reason r) (fe_summary r).

Definition rel_of (e : Enriched) : Q := default 0%Q (e_relevance e).

(** [.sort((a, b) => b.relevance - a.relevance)]: a stable sort,
    greatest relevance first. *)
Fixpoint insert_desc (x : Enriched) (l : list Enriched) : list Enriched :=
  match l with
  | [] => [x]
  | y :: l' =>
    if Qle_bool (rel_of y) (rel_of x) then x :: y :: l'
    else y :: insert_desc x l'
  end.

Definition sort_desc (l : list Enriched) : list Enriched :=
  foldr insert_desc [] l.

(** [{ ...r, relevance: 0.5, summary: r.snippet }]. *)
Definition unfiltered (r : RawResult) : Enriched :=
  mkEnriched (Some (r_title r)) (Some (r_url r)) (Some (r_snippet r))
             (Some double_0_5) None (Some (r_snippet r)).

(** The [try] block of [filterResearchResults]. *)
Definition filter_try (w : World) (cfg : Config)
    (searchResults : list RawResult) (td : TweetData) : result (list Enriched) :=
  rbind (filter_reply w searchResults td) (fun filtered =>
    match filtered with
    | None => Throw "TypeError"
    | Some entries =>
      Ok (sort_desc
            (map (enrich searchResults)
               (filter (fun r => relevance_at_least (researchRelevanceThreshold cfg)
                                   (fe_relevance r) = true) entries)))
    end).

Definition filterResearchResults (w : World) (cfg : Config)
    (searchResults : list RawResult) (td : TweetData) : result (list Enriched) :=
  if (length searchResults =? 0)%nat then Ok []
  else
    rbind (tags_joined td) (fun _ =>
      match filter_try w cfg searchResults td with
      | Ok enrichedResults => Ok enrichedResults
      | Throw _ => Ok (map unfiltered searchResults)
      end).

Definition performAutoResearch (w : World) (cfg : Config) (td : TweetData)
    : result (option ResearchData) :=
  if negb (enableAutoResearch cfg) then Ok None
  else
    match
      rbind (generateSearchQuery w td) (fun searchQuery =>
      rbind (performWebSearch w searchQuery) (fun searchResults =>
      if (length searchResults =? 0)%nat
      then Ok (Some (mkResearchData searchQuery []))
      else
        rbind (filterResearchResults w cfg searchResults td) (fun filteredResults =>
        Ok (Some (mkResearchData searchQuery filteredResults)))))
    with
    | Ok r => Ok r
    | Throw _ => Ok None
    end.

(** *** Formatting the note *)

(** The engagement line of the note: the interpolation
    [tweetData.engagement.likes ? `**Engagement:** ...` : '']. *)
Definition engagementLine (e : Engagement) : string :=
  if jsval_truthy (likes e)
  then "**Engagement:** " +:+ jsval_show (likes e) +:+ " â¤ï¸ Â· "
       +:+ jsval_show (retweets e) +:+ " ðŸ”„ Â· "
       +:+ jsval_show (replies e) +:+ " ðŸ’¬"
  else "".

Definition relevanceLabel (r : option Q) : string :=
  if relevance_at_least double_0_8 r then "High"
  else if relevance_at_least double_0_6 r then "Medium"
  else "Low".

(** [`${(result.relevance * 100).toFixed(0)}`]. *)
Definition percent (w : World) (r : option Q) : string :=
  match r with
  | Some q => percent_toFixed0 w q
  | None => "NaN"
  end.

(** [result.summary || result.snippet], interpolated. *)
Definition summary_or_snippet (e : Enriched) : string :=
  match e_summary e with
  | Some s => if bool_decide (s = EmptyString) then show_opt (e_snippet e) else s
  | None => show_opt (e_snippet e)
  end.

Definition why_line (e : Enriched) : string :=
  match e_reason e with
  | Some r => if bool_decide (r = EmptyString) then "" else nl +:+ "   - Why: " +:+ r
  | None => ""
  end.

(** What the [forEach] callback appends for the result at index [idx]. *)
Definition researchItem (w : World) (idx : nat) (e : Enriched) : string :=
  nl +:+ pretty (idx + 1)%nat +:+ ". **[" +:+ show_opt (e_title e) +:+ "]("
     +:+ show_opt (e_url e) +:+ ")**" +:+ nl
  +:+ "   - " +:+ summary_or_snippet e +:+ nl
  +:+ "   - Relevance: " +:+ relevanceLabel (e_relevance e)
     +:+ " (" +:+ percent w (e_relevance e) +:+ "%)" +:+ why_line e +:+ nl.

Definition researchSection (w : World) (researchData : option ResearchData) : string :=
  match researchData with
  | Some rd =>
    if (0 <? length (results rd))%nat then
      nl +:+ "## Auto-Research" +:+ nl +:+ nl
      +:+ "**Search Query:** " +:+ dq +:+ query rd +:+ dq +:+ nl +:+ nl
      +:+ "### Related Resources" +:+ nl
      +:+ String.concat "" (imap (researchItem w) (results rd))
    else ""
  | None => ""
  end.

Definition frontmatter (w : World) (today : string) (td : TweetData)
    (screenshotPath : string) : string :=
  "---" +:+ nl
  +:+ "created: " +:+ today +:+ nl
  +:+ "source: twitter" +:+ nl
  +:+ "author: " +:+ author td +:+ nl
  +:+ "author_name: " +:+ authorName td +:+ nl
  +:+ "date: " +:+ or_default (date td) "unknown" +:+ nl
  +:+ "tags: " +:+ JSON_stringify_tags w (tags td) +:+ nl
  +:+ "category: " +:+ category td +:+ nl
  +:+ "confidence: " +:+ from_option (number_toString w) "undefined" (confidence td) +:+ nl
  +:+ "screenshot: " +:+ dq +:+ "[[" +:+ screenshotPath +:+ "]]" +:+ dq +:+ nl
  +:+ "---".

(** The body of the note up to the engagement line, and after it. *)
Definition noteHead (td : TweetData) : string :=
  "# " +:+ show_opt (title td) +:+ nl +:+ nl
  +:+ "**Author:** " +:+ authorName td +:+ " (" +:+ author td +:+ ")" +:+ nl
  +:+ "**Date:** " +:+ or_default (date td) "Unknown" +:+ nl.

Definition noteTail (w : World) (td : TweetData)
    (screenshotPath : string) (researchData : option ResearchData) : string :=
  nl +:+ nl
  +:+ "## Tweet Content" +:+ nl +:+ nl
  +:+ "> " +:+ text td +:+ nl +:+ nl
  +:+ (if hasImages td then nl +:+ "![[" +:+ screenshotPath +:+ "]]" +:+ nl else "")
  +:+ nl +:+ nl
  +:+ "## Key Insights" +:+ nl +:+ nl
  +:+ summary td +:+ nl +:+ nl
  +:+ "## Relevance" +:+ nl +:+ nl
  +:+ relevance td +:+ nl
  +:+ researchSection w researchData +:+ nl +:+ nl
  +:+ "## Related Notes" +:+ nl +:+ nl
  +:+ "-" +:+ nl +:+ nl
  +:+ "---" +:+ nl
  +:+ "**Captured from:** [[00 - Inbox/ðŸ“¥ Quick Capture|Quick Capture]]" +:+ nl
  +:+ "**Screenshot:** [[" +:+ screenshotPath +:+ "]]".

Definition noteBody (w : World) (td : TweetData) (e : Engagement)
    (screenshotPath : string) (researchData : option ResearchData) : string :=
  noteHead td +:+ engagementLine e +:+ noteTail w td screenshotPath researchData.

(** [generateNote]: reads the clock, and throws when [engagement] is
    missing ([tweetData.engagement.likes]). *)
Definition generateNote (w : World) (td : TweetData) (screenshotPath : string)
    (researchData : option ResearchData) : M string :=
  do iso <- now (isoTime w);
  let today := before_T iso in
  match engagement td with
  | None => throw "TypeError"
  | Some e =>
    ret (frontmatter w today td screenshotPath +:+ nl +:+ nl
         +:+ noteBody w td e screenshotPath researchData)
  end.

(** *** Routing, naming and saving *)

(** [a < b] on numbers; a missing left operand is [undefined] and
    compares false. *)
Definition less_than (a : option Q) (b : Q) : bool :=
  match a with
  | Some q => negb (Qle_bool b q)
  | None => false
  end.

(** The target directory that [saveNote] chooses. *)
Definition targetDir (cfg : Config) (td : TweetData) : string :=
  if less_than (confidence td) (confidenceThreshold cfg) then unsureDir
  else if bool_decide (category td = "resource") then resourcesDir
  else projectsDir.

(** The sanitised title, before the extension is appended. *)
Definition sanitize (title : string) : string :=
  substring_0 50
    (replace_edge_hyphens (replace_nonalnum_runs (toLowerCase title))).

(** The file name that [saveNote] derives from the title. *)
Definition noteFilename (title : string) : string := sanitize title +:+ ".md".

Definition saveNote (cfg : Config) (td : TweetData) (noteContent : string)
    (screenshot : Screenshot) : M SaveResult :=
  let dirPath := path_join (vaultPath cfg) (targetDir cfg td) in
  do there <- existsSync dirPath;
  do_ (if negb there then mkdirSync dirPath else ret tt);
  match title td with
  | None => throw "TypeError"
  | Some t =>
    let filePath := path_join dirPath (noteFilename t) in
    if dryRun cfg then ret (mkSaveResult false None)
    else
      do_ writeFileSync filePath noteContent;
      ret (mkSaveResult true (Some filePath))
  end.

(** *** The log *)

Definition logHeader : string :=
  "# Tweet Processing Log" +:+ nl +:+ nl
  +:+ "Automated processing log for tweet screenshots." +:+ nl +:+ nl
  +:+ "---" +:+ nl +:+ nl.

Definition separator : string := "---" +:+ nl +:+ nl.

Definition logEntry (w : World) (timestamp : string) (td : TweetData)
    (joinedTags : string) (screenshot : Screenshot) (notePath : string) : string :=
  "## " +:+ before_T timestamp +:+ " - " +:+ show_opt (title td) +:+ nl +:+ nl
  +:+ "- **Author:** " +:+ author td +:+ nl
  +:+ "- **Category:** " +:+ category td +:+ nl
  +:+ "- **Tags:** " +:+ joinedTags +:+ nl
  +:+ "- **Note:** [[" +:+ basename_md w notePath +:+ "]]" +:+ nl
  +:+ "- **Screenshot:** [[" +:+ relativePath screenshot +:+ "]]" +:+ nl
  +:+ "- **Processed:** " +:+ timestamp +:+ nl +:+ nl.

(** [logContent.slice(0, headerEnd) + entry + logContent.slice(headerEnd)]
    with [headerEnd = logContent.indexOf('---\n\n') + 5], as the text
    that [writeFileSync] stores for it.  The entry starts with [##] and
    ends with a line feed, so the halves of a surrogate pair that the
    slice cut stay apart. *)
Definition insertEntry (logContent entry : string) : string :=
  let headerEnd := Z.to_nat (indexOf_units separator logContent + 5) in
  let '(before, after) := slice_units false headerEnd logContent in
  before +:+ entry +:+ after.

Definition logResult (w : World) (cfg : Config) (td : TweetData)
    (screenshot : Screenshot) (notePath : string) : M unit :=
  let logPath := path_join (vaultPath cfg) logFile in
  do timestamp <- now (isoTime w);
  do there <- existsSync logPath;
  do logContent <- (if there then readFileSync logPath else ret logHeader);
  do joinedTags <- lift (tags_joined td);
  let entry := logEntry w timestamp td joinedTags screenshot notePath in
  let logContent' := insertEntry logContent entry in
  if negb (dryRun cfg) then writeFileSync logPath logContent' else ret tt.

(** *** The processed set *)

Definition marker (processedAt provider : string) : json :=
  JObj [("processedAt", JStr processedAt); ("provider", JStr provider)].

Definition set_processed (k : string) (v : json) : M unit :=
  fun st => (Ok tt, mkState (fs st) (<[k:=v]> (processedScreenshots st)) (ticks st)).

Definition markAsProcessed (w : World) (cfg : Config) (name : string) : M unit :=
  do processedAt <- now (isoTime w);
  do_ set_processed name (marker processedAt (aiProvider cfg));
  if negb (dryRun cfg) then
    do st <- get_state;
    writeFileSync (processedFile cfg) (JSON_stringify_store w (processedScreenshots st))
  else ret tt.

(** *** The batch *)

(** [value.toFixed(2)] in the progress line: throws when [confidence] is
    missing. *)
Definition confidence_shown (td : TweetData) : result unit :=
  match confidence td with
  | Some _ => Ok tt
  | None => Throw "TypeError"
  end.

(** The part of the [try] block up to the call of [saveNote]. *)
Definition classifyAndSave (w : World) (cfg : Config) (screenshot : Screenshot)
    : M (TweetData * SaveResult) :=
  do tweetData <- analyzeScreenshot w (fullPath screenshot);
  do_ lift (confidence_shown tweetData);
  do_ lift (tags_joined tweetData);
  do researchData <- lift (performAutoResearch w cfg tweetData);
  do noteContent <- generateNote w tweetData (relativePath screenshot) researchData;
  do result <- saveNote cfg tweetData noteContent screenshot;
  ret (tweetData, result).

(** The log step of the [try] block: [if (result.path) logResult(...)]. *)
Definition logIfSaved (w : World) (cfg : Config) (screenshot : Screenshot)
    (tweetData : TweetData) (result : SaveResult) : M unit :=
  match path result with
  | Some p => if bool_decide (p = EmptyString) then ret tt
              else logResult w cfg tweetData screenshot p
  | None => ret tt
  end.

(** The [try] block of the loop; the value tells whether [processed++]
    was reached. *)
Definition tryBlock (w : World) (cfg : Config) (screenshot : Screenshot) : M bool :=
  do tr <- classifyAndSave w cfg screenshot;
  let '(tweetData, result) := tr in
  if saved result || dryRun cfg then
    do_ logIfSaved w cfg screenshot tweetData result;
    do_ markAsProcessed w cfg (filename screenshot);
    ret true
  else ret false.

(** One iteration of the loop with its [catch]. *)
Definition processOne (w : World) (cfg : Config) (screenshot : Screenshot)
    (c : Counters) : M Counters :=
  try_catch
    (do counted <- tryBlock w cfg screenshot;
     ret (if counted then mkCounters (S (processed c)) (failed c) else c))
    (fun _ => ret (mkCounters (processed c) (S (failed c)))).

Fixpoint processAll (w : World) (cfg : Config) (screenshots : list Screenshot)
    (c : Counters) : M Counters :=
  match screenshots with
  | [] => ret c
  | screenshot :: rest =>
    do c' <- processOne w cfg screenshot c;
    processAll w cfg rest c'
  end.

(** [main]: [None] is the early return when nothing is new, [Some c] the
    counters that the summary prints. *)
Definition main (w : World) (cfg : Config) : M (option Counters) :=
  do screenshots <- findNewScreenshots cfg;
  if (length screenshots =? 0)%nat then ret None
  else
    do c <- processAll w cfg screenshots (mkCounters 0 0);
    ret (Some c).

(** ** The file name as the specification words it *)

Module Spec.

(** The maximal blocks of consecutive characters of one kind: inside
    the class [[a-z0-9]] or outside of it. *)
Fixpoint blocks (s : string) : list (bool * string) :=
  match s with
  | EmptyString => []
  | String c r =>
    match blocks r with
    | (b, blk) :: rest =>
      if Bool.eqb b (is_az09 c) then (b, String c blk) :: rest
      else (is_az09 c, String c EmptyString) :: (b, blk) :: rest
    | [] => [(is_az09 c, String c EmptyString)]
    end
  end.

(** Every run of non-alphanumeric characters replaced by one hyphen. *)
Definition render_block (b : bool * string) : string := if b.1 then b.2 else "-".

Definition hyphenate_runs (s : string) : string :=
  String.concat "" (map render_block (blocks s)).

(** All hyphens at the start, and all at the end, removed. *)
Fixpoint drop_leading_hyphens (s : string) : string :=
  match s with
  | EmptyString => EmptyString
  | String c r => if is_hyphen c then drop_leading_hyphens r else s
  end.

Fixpoint drop_trailing_hyphens (s : string) : string :=
  match s with
  | EmptyString => EmptyString
  | String c r =>
    match drop_trailing_hyphens r with
    | EmptyString => if is_hyphen c then EmptyString else String c EmptyString
    | String c' r' => String c (String c' r')
    end
  end.

Definition trim_hyphens (s : string) : string :=
  drop_trailing_hyphens (drop_leading_hyphens s).

Definition filename (title : string) : string :=
  substring_0 50 (trim_hyphens (hyphenate_runs (toLowerCase title))) +:+ ".md".

End Spec.

Definition starts_with_hyphen (s : string) : bool :=
  match s with
  | String c _ => is_hyphen c
  | EmptyString => false
  end.

Fixpoint ends_with_hyphen (s : string) : bool :=
  match s with
  | EmptyString => false
  | String c r =>
    match r with
    | EmptyString => is_hyphen c
    | String _ _ => ends_with_hyphen r
    end
  end.

(** No two hyphens in a row. *)
Fixpoint single_hyphens (s : string) : bool :=
  match s with
  | EmptyString => true
  | String c r => negb (is_hyphen c && starts_with_hyphen r) && single_hyphens r
  end.

Fixpoint any_az09 (s : string) : bool :=
  match s with
  | EmptyString => false
  | String c r => is_az09 c || any_az09 r
  end.

(** A title has an alphanumeric character when its lower-cased text has
    a character of the class [[a-z0-9]]: the script's own reading. *)
Definition has_alphanumeric (title : string) : bool :=
  any_az09 (toLowerCase title).

(** The title is plain ASCII, and it has an ASCII letter or digit. *)
Fixpoint all_ascii (s : string) : bool :=
  match s with
  | EmptyString => true
  | String c r => (nat_of_ascii c <? 128) && all_ascii r
  end.

Fixpoint any_letter_or_digit (s : string) : bool :=
  match s with
  | EmptyString => false
  | String c r => is_az09 c || is_upper c || any_letter_or_digit r
  end.

(** A count is present when it is neither missing nor null. *)
Definition jsval_present (v : jsval) : bool :=
  match v with
  | Undefined | Null => false
  | Num _ | Str _ => true
  end.

Definition has_engagement_data (e : Engagement) : bool :=
  jsval_present (likes e) || jsval_present (retweets e) || jsval_present (replies e).

(** ** Relations between the state before and after a computation *)

(** Whatever [m] returns or throws, the states before and after it are
    related by [R]. *)
Definition respects {A} (R : State -> State -> Prop) (m : M A) : Prop :=
  forall st, R st (m st).2.

(** The identifier [X] has a marker in the processed set: an object,
    as [markAsProcessed] stores it and as [JSON.parse] reads it back. *)
Definition has_marker (X : string) (st : State) : Prop :=
  exists fields, processedScreenshots st !! X = Some (JObj fields).

Definition keeps_marker (X : string) (st st' : State) : Prop :=
  has_marker X st -> has_marker X st'.

(** The processed set, in memory and on disk, is as it was. *)
Definition marker_untouched (cfg : Config) (st st' : State) : Prop :=
  processedScreenshots st' = processedScreenshots st
  /\ files (fs st') !! processedFile cfg = files (fs st) !! processedFile cfg.

(** No file was written; directories may have been created. *)
Definition files_untouched (st st' : State) : Prop :=
  files (fs st') = files (fs st)
  /\ denied (fs st') = denied (fs st)
  /\ dirs (fs st) ⊆ dirs (fs st').

Fixpoint last_byte (s : string) : option ascii :=
  match s with
  | EmptyString => None
  | String c r =>
    match r with
    | EmptyString => Some c
    | String _ _ => last_byte r
    end
  end.

(** The [try] block up to the call of [markAsProcessed]. *)
Definition beforeMarking (w : World) (cfg : Config) (screenshot : Screenshot)
    : M (TweetData * SaveResult) :=
  do tr <- classifyAndSave w cfg screenshot;
  if saved tr.2 || dryRun cfg then
    do_ logIfSaved w cfg screenshot tr.1 tr.2;
    ret tr
  else ret tr.

(** ** Node's [path.join]

    [path.join] of Node on POSIX, with the normalisation it does.  The
    pipeline is written with [path_join], which is what [path.join]
    gives for components that need no normalisation. *)

Module Path.

(** The segments of [p]: the texts between its slashes. *)
Fixpoint segments (p : string) : list string :=
  match p with
  | EmptyString => [EmptyString]
  | String c r =>
    if byte_is 47 c then EmptyString :: segments r
    else match segments r with
         | seg :: rest => String c seg :: rest
         | [] => [String c EmptyString]
         end
  end.

(** One step of [normalizeString], on the segments kept so far, the last
    one first: an empty segment and [.] are dropped, [..] takes the last
    segment away, or stays when there is none to take and the path is
    relative. *)
Definition keep (allowAboveRoot : bool) (kept : list string) (seg : string)
    : list string :=
  if bool_decide (seg = "") || bool_decide (seg = ".") then kept
  else if bool_decide (seg = "..") then
    match kept with
    | last :: before =>
      if bool_decide (last = "..") then (if allowAboveRoot then seg :: kept else kept)
      else before
    | [] => if allowAboveRoot then [seg] else []
    end
  else seg :: kept.

Definition normalizeString (p : string) (allowAboveRoot : bool) : string :=
  String.concat "/" (rev (fold_left (keep allowAboveRoot) (segments p) [])).

Definition isAbsolute (p : string) : bool :=
  match p with
  | String c _ => byte_is 47 c
  | EmptyString => false
  end.

Definition trailingSeparator (p : string) : bool :=
  bool_decide (last_byte p = Some "/"%char).

Definition normalize (p : string) : string :=
  if bool_decide (p = "") then "."
  else
    let res := normalizeString p (negb (isAbsolute p)) in
    if bool_decide (res = "") then
      if isAbsolute p then "/" else if trailingSeparator p then "./" else "."
    else
      (if isAbsolute p then "/" else "") +:+ res
      +:+ (if trailingSeparator p then "/" else "").

(** [path.join(a, b)]. *)
Definition join (a b : string) : string :=
  let joined :=
    if bool_decide (a = "") then b
    else if bool_decide (b = "") then a
    else a +:+ "/" +:+ b in
  if bool_decide (joined = "") then "." else normalize joined.

End Path.

(** A segment that normalisation keeps as it is. *)
Definition plain_segment (seg : string) : bool :=
  negb (bool_decide (seg = "") || bool_decide (seg = ".") || bool_decide (seg = "..")).

(** A relative path that needs no normalisation: segments that are kept,
    one slash between them. *)
Definition plain_relative (p : string) : bool :=
  forallb plain_segment (Path.segments p).

(** A path that needs no normalisation, relative or absolute; not the
    root. *)
Definition plain_path (p : string) : bool :=
  match Path.segments p with
  | EmptyString :: rest => negb (bool_decide (rest = [])) && forallb plain_segment rest
  | segs => forallb plain_segment segs
  end.

(** ** Sequences of log calls *)

(** [hay] is [pre], then [needle], then [post], and [needle] does not
    occur in [hay] any earlier. *)
Definition first_occurrence (needle hay pre post : string) : Prop :=
  hay = pre +:+ needle +:+ post
  /\ forall pre' post', hay = pre' +:+ needle +:+ post' ->
       String.length pre <= String.length pre'.

Definition logPath (cfg : Config) : string := path_join (vaultPath cfg) logFile.

(** The log can be written: its path is not refused and no directory,
    and its directory exists. *)
Definition log_writable (cfg : Config) (st : State) : Prop :=
  (logPath cfg ∉ denied (fs st)) /\ (logPath cfg ∉ dirs (fs st))
  /\ (dirname (logPath cfg) ∈ dirs (fs st)).

(** What [logResult] takes as [logContent]. *)
Definition current_log (cfg : Config) (st : State) : string :=
  default logHeader (files (fs st) !! logPath cfg).

Definition LogCall : Type := TweetData * Screenshot * string.

(** The calls [logResult(td, screenshot, notePath)], one after another. *)
Fixpoint logAll (w : World) (cfg : Config) (calls : list LogCall) : M unit :=
  match calls with
  | [] => ret tt
  | (td, screenshot, notePath) :: rest =>
    do_ logResult w cfg td screenshot notePath;
    logAll w cfg rest
  end.

(** The entry of a call that reads the clock at [tick]. *)
Definition entryOf (w : World) (tick : nat) (call : LogCall) : string :=
  let '(td, screenshot, notePath) := call in
  logEntry w (isoTime w tick) td (join ", " (default [] (tags td))) screenshot notePath.

Fixpoint entries_from (w : World) (tick : nat) (calls : list LogCall) : list string :=
  match calls with
  | [] => []
  | call :: rest => entryOf w tick call :: entries_from w (S tick) rest
  end.

Definition tags_present (call : LogCall) : Prop := is_Some (tags call.1.1).

(** ** Further notions used by the properties *)

(** Every character is of the class [[a-z0-9]] or a hyphen. *)
Fixpoint all_safe (s : string) : bool :=
  match s with
  | EmptyString => true
  | String c r => (is_az09 c || is_hyphen c) && all_safe r
  end.

(** The test of the scanner's filter on a directory entry. *)
Definition is_new_image (processedSet : gmap string json) (f : string) : bool :=
  is_image f && falsy_at processedSet f.

(** The record that the scanner builds for the entry [f]. *)
Definition screenshot_of (cfg : Config) (f : string) : Screenshot :=
  mkScreenshot f (path_join (path_join (vaultPath cfg) screenshotsDir) f)
               (path_join screenshotsDir f).

(** Greatest relevance first: every later result is at most as relevant. *)
Fixpoint sorted_desc (l : list Enriched) : Prop :=
  match l with
  | [] => True
  | x :: r => Forall (fun y => (rel_of y <= rel_of x)%Q) r /\ sorted_desc r
  end.

(** The entries of the filter's answer that pass the threshold. *)
Definition passing (cfg : Config) (entries : list FilterEntry) : list FilterEntry :=
  filter (fun r => relevance_at_least (researchRelevanceThreshold cfg)
                     (fe_relevance r) = true) entries.

(** The results whose relevance is the number [q]. *)
Definition with_relevance (q : Q) (l : list Enriched) : list Enriched :=
  filter (fun e => Qeq_bool (rel_of e) q = true) l.

(** The state after one reading of the clock. *)
Definition ticked (st : State) : State :=
  mkState (fs st) (processedScreenshots st) (S (ticks st)).

(** The state after the directories [ds] were created. *)
Definition with_dirs (ds : list string) (st : State) : State :=
  mkState (mkFS (files (fs st)) (list_to_set ds ∪ dirs (fs st)) (denied (fs st)))
          (processedScreenshots st) (ticks st).

(** The state after [content] was written to the file [p]. *)
Definition with_file (p content : string) (st : State) : State :=
  mkState (mkFS (<[p:=content]> (files (fs st))) (dirs (fs st)) (denied (fs st)))
          (processedScreenshots st) (ticks st).

(** The directory and the path of the note that [saveNote] derives. *)
Definition noteDir (cfg : Config) (td : TweetData) : string :=
  path_join (vaultPath cfg) (targetDir cfg td).

Definition notePath (cfg : Config) (td : TweetData) (t : string) : string :=
  path_join (noteDir cfg td) (noteFilename t).

(** The directory [d] is there, or it can be created: nothing is in its
    place, it is not refused, and every directory above it is there or
    can be created in the same way. *)
Definition dir_available (d : string) (st : State) : Prop :=
  d ∈ dirs (fs st)
  \/ (files (fs st) !! d = None /\ (d ∉ denied (fs st))
      /\ Forall (fun a => files (fs st) !! a = None
                          /\ (a ∈ dirs (fs st) \/ a ∉ denied (fs st)))
                (ancestors d)).

(** The state after [saveNote] made sure that [d] exists. *)
Definition ensured_dir (d : string) (st : State) : State :=
  if bool_decide (d ∈ dirs (fs st)) then st else with_dirs (d :: ancestors d) st.

Fixpoint no_slash (s : string) : bool :=
  match s with
  | EmptyString => true
  | String c r => negb (byte_is 47 c) && no_slash r
  end.

(** The processed set after [name] was marked at the clock of [st]. *)
Definition marked (w : World) (cfg : Config) (name : string) (st : State)
    : gmap string json :=
  <[name := marker (isoTime w (ticks st)) (aiProvider cfg)]> (processedScreenshots st).

(** The file of the processed set can be written. *)
Definition store_writable (cfg : Config) (st : State) : Prop :=
  (processedFile cfg ∉ denied (fs st)) /\ (processedFile cfg ∉ dirs (fs st))
  /\ (dirname (processedFile cfg) ∈ dirs (fs st)).

(** The file of the processed set is not the vault nor a directory above
    it. *)
Definition marker_outside_vault (cfg : Config) : Prop :=
  processedFile cfg <> vaultPath cfg /\ (processedFile cfg ∉ ancestors (vaultPath cfg)).

(** No directory took the place of the file of the processed set. *)
Definition dirs_keep_off (cfg : Config) (st st' : State) : Prop :=
  processedFile cfg ∈ dirs (fs st') -> processedFile cfg ∈ dirs (fs st).

(** The state in which the next process starts on the file system [f]:
    the processed set is what [loadProcessed] read. *)
Definition restarted (f : FS) (loaded : gmap string json) : State :=
  mkState f loaded 0.

(** Between [st] and [st'] only the file at [p] can differ, besides the
    clock. *)
Definition only_file_touched (p : string) (st st' : State) : Prop :=
  (forall q, q <> p -> files (fs st') !! q = files (fs st) !! q)
  /\ dirs (fs st') = dirs (fs st)
  /\ denied (fs st') = denied (fs st)
  /\ processedScreenshots st' = processedScreenshots st.

(** ** Unwrapping a fenced answer *)

(** [s.startsWith(p)]. *)
Fixpoint startsWith (p s : string) : bool :=
  match p, s with
  | EmptyString, _ => true
  | String a p', String b s' => Ascii.eqb a b && startsWith p' s'
  | String _ _, EmptyString => false
  end.

(** The length of the match of [/```json?\n?/] at the start of [s], if
    there is one: the three backticks and [jso], then an [n] and then a
    line feed where they are there. *)
Definition open_fence_match (s : string) : option nat :=
  if startsWith "```jso" s then
    let r := slice_from 6 s in
    let a := if startsWith "n" r then 1 else 0 in
    let b := if startsWith nl (slice_from a r) then 1 else 0 in
    Some (6 + a + b)
  else None.

(** [s.replace(/```json?\n?/g, '')], with [skip] characters of a match
    still to drop: every match is dropped, and the search goes on behind
    it. *)
Fixpoint remove_open_fences_from (skip : nat) (s : string) : string :=
  match s with
  | EmptyString => EmptyString
  | String c r =>
    match skip with
    | S k => remove_open_fences_from k r
    | O =>
      match open_fence_match s with
      | Some (S k) => remove_open_fences_from k r
      | _ => String c (remove_open_fences_from 0 r)
      end
    end
  end.

Definition remove_open_fences (s : string) : string := remove_open_fences_from 0 s.

(** [s.replace(/```\n?$/g, '')]: the pattern matches only where three
    backticks, or three backticks and a line feed, end the text. *)
Fixpoint remove_close_fence (s : string) : string :=
  if bool_decide (s = "```") || bool_decide (s = "```" +:+ nl) then EmptyString
  else
    match s with
    | EmptyString => EmptyString
    | String c r => String c (remove_close_fence r)
    end.

(** What [analyzeScreenshot] and [filterResearchResults] do to the
    trimmed answer before [JSON.parse]. *)
Definition unwrap_fences (jsonText : string) : string :=
  if startsWith "```" jsonText
  then remove_close_fence (remove_open_fences jsonText)
  else jsonText.

Definition is_backtick (c : ascii) : bool := Ascii.eqb "`" c.

Fixpoint no_backtick (s : string) : bool :=
  match s with
  | EmptyString => true
  | String c r => negb (is_backtick c) && no_backtick r
  end.

(** No character of [s] lies outside the Basic Multilingual Plane. *)
Fixpoint no_astral (s : string) : bool :=
  match s with
  | EmptyString => true
  | String c r => negb (is_astral_lead c) && no_astral r
  end.

(** ** Sample data *)

Definition td_sample : TweetData :=
  mkTweetData "@dev" "Dev" (Some "2025-01-05") "Notes on retrieval." true false
    (Some (mkEngagement (Num 1200) (Num 234) (Num 89))) "resource" (Some (92 # 100)%Q)
    (Some ["ai"; "rag"]) "Retrieval matters." (Some "Building RAG Systems with Claude")
    "Useful for the chatbot.".

Definition cfg_sample (dry : bool) : Config :=
  mkConfig "/vault" "/scripts" double_0_7 "gemini" dry true double_0_6.

Definition raw_sample : list RawResult :=
  [mkRawResult "RAG guide" "https://example.org/rag" "How retrieval works.";
   mkRawResult "Vector stores" "https://example.org/vec" "Choosing an index."].

(** A world whose vision model answers [td], whose search finds
    [raw_sample] and whose relevance filter fails. *)
Definition world_sample (td : TweetData) : World :=
  mkWorld (fun _ => Ok td) (fun _ => Ok "rag systems") (fun _ => Ok raw_sample)
    (fun _ _ => Throw "quota exceeded")
    (fun n => "2025-01-0" +:+ pretty (S n) +:+ "T10:00:00.000Z")
    (fun _ => "0.92") (fun _ => "50") (fun _ => "[tags]") (fun _ => "{store}")
    (fun _ => Ok ∅) (fun p => p).

(** A vault with two new screenshots and one that is already marked;
    the inbox exists, the folders for the notes do not exist yet. *)
Definition fs_sample : FS :=
  mkFS {[ "/vault/Attachments/Xeets/one.png" := "<image one>";
          "/vault/Attachments/Xeets/two.jpg" := "<image two>";
          "/vault/Attachments/Xeets/seen.png" := "<image seen>";
          "/vault/Attachments/Xeets/notes.txt" := "not an image" ]}
       {[ "/vault/Attachments/Xeets"; "/vault/00 - Inbox"; "/scripts" ]} ∅.

Definition st_sample : State :=
  mkState fs_sample {[ "seen.png" := marker "2025-01-01T09:00:00.000Z" "gemini" ]} 0.

Definition shot_sample : Screenshot :=
  mkScreenshot "one.png" "/vault/Attachments/Xeets/one.png" "Attachments/Xeets/one.png".

(** A record without [engagement]: formatting it throws. *)
Definition td_malformed : TweetData :=
  mkTweetData "@dev" "Dev" None "Notes on retrieval." false false
    None "resource" (Some (92 # 100)%Q)
    (Some ["ai"]) "Retrieval matters." (Some "Building RAG Systems with Claude")
    "Useful for the chatbot.".

(** A record without [title]: deriving the file name throws. *)
Definition td_untitled : TweetData :=
  mkTweetData "@dev" "Dev" (Some "2025-01-05") "Notes on retrieval." true false
    (Some (mkEngagement (Num 1200) (Num 234) (Num 89))) "resource" (Some (92 # 100)%Q)
    (Some ["ai"; "rag"]) "Retrieval matters." None
    "Useful for the chatbot.".

Definition calls_sample : list LogCall :=
  [(td_sample, shot_sample, "/vault/03 - Resources/X Insights/first.md");
   (td_sample, shot_sample, "/vault/03 - Resources/X Insights/second.md")].

Definition entries_sample : list FilterEntry :=
  [mkFilterEntry 2 (Some (7 # 10)%Q) (Some "hands-on") (Some "A guide.");
   mkFilterEntry 1 (Some (9 # 10)%Q) None None;
   mkFilterEntry 7 (Some (1 # 10)%Q) None None].

(** The sample world with a relevance filter that answers [entries]. *)
Definition world_filtering (td : TweetData) (entries : list FilterEntry) : World :=
  mkWorld (fun _ => Ok td) (fun _ => Ok "rag systems") (fun _ => Ok raw_sample)
    (fun _ _ => Ok (Some entries))
    (fun n => "2025-01-0" +:+ pretty (S n) +:+ "T10:00:00.000Z")
    (fun _ => "0.92") (fun _ => "50") (fun _ => "[tags]") (fun _ => "{store}")
    (fun _ => Ok ∅) (fun p => p).

(** The sample world, with a serialisation of the processed set that
    [JSON.parse] reads back as [store]. *)
Definition world_reading (td : TweetData) (store : gmap string json) : World :=
  mkWorld (fun _ => Ok td) (fun _ => Ok "rag systems") (fun _ => Ok raw_sample)
    (fun _ _ => Throw "quota exceeded")
    (fun n => "2025-01-0" +:+ pretty (S n) +:+ "T10:00:00.000Z")
    (fun _ => "0.92") (fun _ => "50") (fun _ => "[tags]") (fun _ => "{store}")
    (fun _ => Ok store) (fun p => p).

(** * Properties *)

(** ** Strings *)

Lemma app_cons c (x y : string) : String c x +:+ y = String c (x +:+ y).
Proof. reflexivity. Qed.

Lemma app_empty_l (y : string) : "" +:+ y = y.
Proof. reflexivity. Qed.

Lemma app_empty_r (x : string) : x +:+ "" = x.
Proof. induction x as [|c x IH]; [done|]. by rewrite app_cons, IH. Qed.

Lemma app_assoc' (x y z : string) : (x +:+ y) +:+ z = x +:+ (y +:+ z).
Proof. induction x as [|c x IH]; [done|]. by rewrite !app_cons, IH. Qed.

Lemma app_length' (x y : string) :
  String.length (x +:+ y) = String.length x + String.length y.
Proof. induction x as [|c x IH]; [done|]. rewrite app_cons. simpl. by rewrite IH. Qed.

(** ** File names *)

Section FileNames.

Lemma az09_not_hyphen c : is_az09 c = true -> is_hyphen c = false.
Proof.
  unfold is_az09, is_hyphen, byte_is. intros H.
  apply Nat.eqb_neq. intros E. rewrite E in H. discriminate.
Qed.

Lemma is_hyphen_eq c : is_hyphen c = true -> c = "-"%char.
Proof.
  unfold is_hyphen, byte_is. intros H%Nat.eqb_eq.
  rewrite <- (ascii_nat_embedding c), H. reflexivity.
Qed.

Lemma replace_runs_true_start s :
  starts_with_hyphen (replace_runs_from true s) = false.
Proof.
  induction s as [|c r IH]; simpl; [done|].
  destruct (is_az09 c) eqn:E; simpl; [by apply az09_not_hyphen | done].
Qed.

Lemma replace_runs_single b s : single_hyphens (replace_runs_from b s) = true.
Proof.
  revert b. induction s as [|c r IH]; intros b; simpl; [done|].
  destruct (is_az09 c) eqn:E; simpl.
  - rewrite (az09_not_hyphen _ E), IH. done.
  - destruct b; [apply IH|]. simpl.
    rewrite replace_runs_true_start, IH. done.
Qed.

Lemma strip_leading_single s :
  single_hyphens s = true ->
  single_hyphens (strip_leading_hyphen s) = true
  /\ starts_with_hyphen (strip_leading_hyphen s) = false.
Proof.
  destruct s as [|c r]; simpl; [done|].
  destruct (is_hyphen c) eqn:E; simpl.
  - intros [H1 H2]%andb_prop. split; [done|].
    by destruct (starts_with_hyphen r).
  - rewrite E. intros H. split; [exact H | done].
Qed.

Lemma strip_trailing_start s :
  starts_with_hyphen s = false -> starts_with_hyphen (strip_trailing_hyphen s) = false.
Proof.
  destruct s as [|c [|c2 r]]; simpl; try done.
  intros H. rewrite H. exact H.
Qed.

Lemma strip_trailing_end s :
  single_hyphens s = true -> ends_with_hyphen (strip_trailing_hyphen s) = false.
Proof.
  induction s as [|c r IH]; [done|].
  destruct r as [|c2 r2].
  - simpl. by destruct (is_hyphen c) eqn:E; simpl; rewrite ?E.
  - intros H. change (single_hyphens (String c (String c2 r2)))
      with (negb (is_hyphen c && is_hyphen c2) && single_hyphens (String c2 r2)) in H.
    apply andb_prop in H as [H1 H2]. specialize (IH H2).
    change (strip_trailing_hyphen (String c (String c2 r2)))
      with (String c (strip_trailing_hyphen (String c2 r2))).
    destruct (strip_trailing_hyphen (String c2 r2)) as [|c3 r3] eqn:E3.
    + (* the tail was a single hyphen, so [c] is not one *)
      destruct r2 as [|c4 r4]; simpl in E3.
      * destruct (is_hyphen c2) eqn:E2; [|discriminate].
        simpl. by destruct (is_hyphen c).
      * discriminate.
    + exact IH.
Qed.

Lemma concat_empty_cons x xs :
  String.concat "" (x :: xs) = x +:+ String.concat "" xs.
Proof.
  destruct xs as [|y ys]; [|done].
  cbn [String.concat]. by rewrite app_empty_r.
Qed.

Lemma replace_runs_blocks s :
  replace_runs_from false s = String.concat "" (map Spec.render_block (Spec.blocks s))
  /\ replace_runs_from true s =
     match Spec.blocks s with
     | (false, _) :: rest => String.concat "" (map Spec.render_block rest)
     | l => String.concat "" (map Spec.render_block l)
     end.
Proof.
  induction s as [|c r [IHf IHt]]; [done|].
  cbn [replace_runs_from Spec.blocks].
  destruct (is_az09 c) eqn:E; rewrite ?IHf, ?IHt;
    destruct (Spec.blocks r) as [|[[] blk] rest];
    cbn [Bool.eqb map]; rewrite ?concat_empty_cons;
    unfold Spec.render_block; cbn [fst snd];
    rewrite ?app_cons, ?app_empty_l; done.
Qed.

Lemma replace_runs_spec s : replace_nonalnum_runs s = Spec.hyphenate_runs s.
Proof. apply replace_runs_blocks. Qed.

Lemma strip_leading_spec s :
  single_hyphens s = true -> strip_leading_hyphen s = Spec.drop_leading_hyphens s.
Proof.
  destruct s as [|c r]; [done|]. simpl.
  destruct (is_hyphen c) eqn:E; [|done]. simpl.
  intros [H _]%andb_prop. destruct r as [|c2 r2]; [done|].
  simpl in *. by destruct (is_hyphen c2).
Qed.

Lemma strip_trailing_spec s :
  single_hyphens s = true -> strip_trailing_hyphen s = Spec.drop_trailing_hyphens s.
Proof.
  induction s as [|c r IH]; [done|].
  destruct r as [|c2 r2]; [done|].
  intros H. change (single_hyphens (String c (String c2 r2)))
    with (negb (is_hyphen c && is_hyphen c2) && single_hyphens (String c2 r2)) in H.
  apply andb_prop in H as [H1 H2]. specialize (IH H2).
  change (strip_trailing_hyphen (String c (String c2 r2)))
    with (String c (strip_trailing_hyphen (String c2 r2))).
  change (Spec.drop_trailing_hyphens (String c (String c2 r2)))
    with (match Spec.drop_trailing_hyphens (String c2 r2) with
          | EmptyString => if is_hyphen c then EmptyString else String c EmptyString
          | String c' r' => String c (String c' r')
          end).
  rewrite <- IH.
  destruct (strip_trailing_hyphen (String c2 r2)) as [|c3 r3] eqn:E3; [|done].
  destruct r2 as [|c4 r4]; simpl in E3; [|discriminate].
  destruct (is_hyphen c2); [|discriminate]. by destruct (is_hyphen c).
Qed.

Lemma replace_edge_spec s :
  single_hyphens s = true -> replace_edge_hyphens s = Spec.trim_hyphens s.
Proof.
  intros H. unfold replace_edge_hyphens, Spec.trim_hyphens.
  rewrite <- (strip_leading_spec _ H).
  apply strip_trailing_spec, strip_leading_single, H.
Qed.

Lemma noteFilename_spec title : noteFilename title = Spec.filename title.
Proof.
  unfold noteFilename, sanitize, Spec.filename.
  rewrite <- replace_runs_spec, replace_edge_spec; [done|].
  apply replace_runs_single.
Qed.

Lemma substring_0_start n s :
  starts_with_hyphen s = false -> starts_with_hyphen (substring_0 n s) = false.
Proof. destruct s as [|c r], n as [|n]; simpl; done. Qed.

Lemma substring_0_all n s : String.length s <= n -> substring_0 n s = s.
Proof.
  unfold substring_0. revert n. induction s as [|c r IH]; intros [|n] H; simpl in *;
    try done; try lia.
  f_equal. apply IH. lia.
Qed.

Lemma edge_start s :
  single_hyphens s = true -> starts_with_hyphen (replace_edge_hyphens s) = false.
Proof.
  intros H. apply strip_trailing_start, strip_leading_single, H.
Qed.

Lemma edge_end s :
  single_hyphens s = true -> ends_with_hyphen (replace_edge_hyphens s) = false.
Proof.
  intros H. apply strip_trailing_end, strip_leading_single, H.
Qed.

Lemma no_az09_runs s :
  any_az09 s = false ->
  replace_runs_from true s = EmptyString
  /\ (replace_runs_from false s = EmptyString \/ replace_runs_from false s = "-").
Proof.
  induction s as [|c r IH]; simpl; [by auto|].
  intros [E H]%orb_false_elim. rewrite E.
  destruct (IH H) as [IHt _]. rewrite IHt. auto.
Qed.

Lemma is_az09_lower c : is_az09 (lower_ascii c) = is_az09 c || is_upper c.
Proof. destruct c as [[] [] [] [] [] [] [] []]; reflexivity. Qed.

Lemma toLowerCase_ascii s : all_ascii s = true -> toLowerCase s = lower_ascii_all s.
Proof.
  induction s as [|c r IH]; [done|].
  intros H. change (all_ascii (String c r))
    with ((nat_of_ascii c <? 128) && all_ascii r) in H.
  apply andb_prop in H as [Hc Hr]. specialize (IH Hr).
  apply Nat.ltb_lt in Hc.
  assert (byte_is 196 c = false) as H196 by (apply Nat.eqb_neq; lia).
  assert (byte_is 226 c = false) as H226 by (apply Nat.eqb_neq; lia).
  destruct r as [|c2 [|c3 r3]].
  - done.
  - cbn [toLowerCase]. rewrite H196. simpl. done.
  - change (toLowerCase (String c (String c2 (String c3 r3))))
      with (if byte_is 196 c && byte_is 176 c2
            then String "i" (String (ascii_of_nat 204) (String (ascii_of_nat 135)
                   (toLowerCase (String c3 r3))))
            else if byte_is 226 c && byte_is 132 c2 && byte_is 170 c3
                 then String "k" (toLowerCase r3)
                 else String (lower_ascii c) (toLowerCase (String c2 (String c3 r3)))).
    rewrite H196, H226, IH. done.
Qed.

(** On a plain ASCII title, having an alphanumeric character is having
    an ASCII letter or digit. *)
Lemma has_alphanumeric_ascii title :
  all_ascii title = true -> has_alphanumeric title = any_letter_or_digit title.
Proof.
  intros H. unfold has_alphanumeric. rewrite (toLowerCase_ascii _ H). clear H.
  induction title as [|c r IH]; [done|].
  simpl. by rewrite is_az09_lower, IH.
Qed.

Lemma ends_with_hyphen_app_md s : ends_with_hyphen (s +:+ ".md") = false.
Proof.
  induction s as [|c r IH]; [done|].
  rewrite app_cons. destruct r as [|c2 r2]; [done|].
  rewrite app_cons in *. exact IH.
Qed.

(** C7, as amended.  For every title the derived file name is the title
    lower-cased, every run of non-alphanumeric characters replaced by one
    hyphen, leading and trailing hyphens trimmed, truncated to 50
    characters, with [.md] appended.  The sanitised base never starts
    with a hyphen, and it ends with one only when the trimmed text is
    longer than 50 characters; the file name itself neither starts nor
    ends with a hyphen; the title [Building RAG Systems: Claude!!] gives
    [building-rag-systems-claude.md]. *)
Theorem filename_derivation (title : string) :
  noteFilename title = Spec.filename title
  /\ starts_with_hyphen (sanitize title) = false
  /\ ends_with_hyphen (sanitize title)
     && (String.length (replace_edge_hyphens (replace_nonalnum_runs (toLowerCase title)))
         <=? 50) = false
  /\ starts_with_hyphen (noteFilename title) = false
  /\ ends_with_hyphen (noteFilename title) = false
  /\ noteFilename "Building RAG Systems: Claude!!" = "building-rag-systems-claude.md".
Proof.
  pose proof (replace_runs_single false (toLowerCase title)) as Hs.
  fold (replace_nonalnum_runs (toLowerCase title)) in Hs.
  assert (starts_with_hyphen (sanitize title) = false) as Hstart
    by (apply substring_0_start, edge_start, Hs).
  repeat apply conj.
  - apply noteFilename_spec.
  - exact Hstart.
  - unfold sanitize.
    destruct (String.length _ <=? 50) eqn:E; [|apply andb_false_r].
    apply Nat.leb_le in E. rewrite (substring_0_all _ _ E), (edge_end _ Hs). done.
  - unfold noteFilename. destruct (sanitize title) as [|c r]; [done|].
    rewrite app_cons. exact Hstart.
  - apply ends_with_hyphen_app_md.
  - reflexivity.
Qed.

(** C7, the claim as stated fails: a title whose fiftieth sanitised
    character is a hyphen gives a base that ends with a hyphen, because
    the truncation comes after the trimming. *)
Lemma filename_trailing_hyphen_after_truncation :
  noteFilename "aaaaaaaaaaaaaaaaaaaaaaaaaaaaaaaaaaaaaaaaaaaaaaaaa bcd"
  = "aaaaaaaaaaaaaaaaaaaaaaaaaaaaaaaaaaaaaaaaaaaaaaaaa-.md"
  /\ ends_with_hyphen (sanitize "aaaaaaaaaaaaaaaaaaaaaaaaaaaaaaaaaaaaaaaaaaaaaaaaa bcd") = true.
Proof. split; reflexivity. Qed.

(** C10.  For every title without an alphanumeric character the
    sanitised base is the empty string and the file name is exactly
    [.md]: nothing checks the base before the extension is appended. *)
Theorem filename_without_alphanumerics (title : string) :
  has_alphanumeric title = false ->
  sanitize title = "" /\ noteFilename title = ".md".
Proof.
  intros H. unfold has_alphanumeric in H.
  assert (sanitize title = "") as E.
  { unfold sanitize, replace_nonalnum_runs.
    destruct (no_az09_runs _ H) as [_ [-> | ->]]; reflexivity. }
  split; [exact E|]. unfold noteFilename. by rewrite E.
Qed.

Lemma filename_without_alphanumerics_witness :
  has_alphanumeric "?! -- ..." = false
  /\ sanitize "?! -- ..." = "" /\ noteFilename "?! -- ..." = ".md".
Proof.
  split; [reflexivity|].
  apply (filename_without_alphanumerics "?! -- ..."). reflexivity.
Defined.

(** The Kelvin sign is no ASCII letter, yet JavaScript lower-cases it to
    [k]: such a title has an alphanumeric character. *)
Example kelvin_title :
  noteFilename (String (ascii_of_nat 226) (String (ascii_of_nat 132)
                  (String (ascii_of_nat 170) ""))) = "k.md".
Proof. reflexivity. Qed.

End FileNames.

(** ** Routing *)

Section Routing.

Lemma less_than_spec (c thr : Q) :
  less_than (Some c) thr = true <-> (c < thr)%Q.
Proof.
  unfold less_than. rewrite negb_true_iff. split.
  - intros H. apply Qnot_le_lt. intros Hle.
    apply Qle_bool_iff in Hle. congruence.
  - intros H. destruct (Qle_bool thr c) eqn:E; [|done].
    apply Qle_bool_iff in E. exfalso. by apply (Qlt_not_le c thr).
Qed.

(** C1.  For a confidence in [[0,1]] and a category among [resource] and
    [project-idea], the routing decision of [saveNote] is one of three
    distinct folders: the review folder when the confidence is below the
    configured threshold, whatever the category; otherwise the resources
    folder for [resource] and the projects folder for [project-idea].
    Without a configured threshold the threshold is 0.7. *)
Theorem routing_decision (cfg : Config) (td : TweetData) (c : Q) :
  confidence td = Some c ->
  (0 <= c)%Q -> (c <= 1)%Q ->
  category td = "resource" \/ category td = "project-idea" ->
  ((c < confidenceThreshold cfg)%Q -> targetDir cfg td = unsureDir)
  /\ (~ (c < confidenceThreshold cfg)%Q -> category td = "resource" ->
      targetDir cfg td = resourcesDir)
  /\ (~ (c < confidenceThreshold cfg)%Q -> category td = "project-idea" ->
      targetDir cfg td = projectsDir)
  /\ (targetDir cfg td = unsureDir \/ targetDir cfg td = resourcesDir
      \/ targetDir cfg td = projectsDir)
  /\ unsureDir <> resourcesDir /\ unsureDir <> projectsDir /\ resourcesDir <> projectsDir
  /\ confidenceThreshold_of_env None = double_0_7.
Proof.
  intros Hc _ _ Hcat. unfold targetDir. rewrite Hc.
  destruct (less_than (Some c) (confidenceThreshold cfg)) eqn:E.
  - apply less_than_spec in E. repeat apply conj; try done; auto.
  - assert (~ (c < confidenceThreshold cfg)%Q) as Hn.
    { intros H%less_than_spec. congruence. }
    repeat apply conj; try done.
    + intros _ ->. done.
    + intros _ ->. done.
    + destruct Hcat as [-> | ->]; auto.
Qed.

Lemma routing_decision_witness :
  targetDir (cfg_sample false) td_sample = resourcesDir.
Proof.
  assert (confidence td_sample = Some (92 # 100)%Q) as Hc by reflexivity.
  assert (0 <= 92 # 100)%Q as H0 by (vm_compute; discriminate).
  assert (92 # 100 <= 1)%Q as H1 by (vm_compute; discriminate).
  assert (category td_sample = "resource" \/ category td_sample = "project-idea") as Hcat
    by (left; reflexivity).
  destruct (routing_decision (cfg_sample false) td_sample (92 # 100)%Q Hc H0 H1 Hcat)
    as (_ & Hres & _).
  apply Hres; [|reflexivity].
  vm_compute. discriminate.
Defined.

End Routing.

(** ** The engagement line *)

Section EngagementLine.

(** C8, as amended.  The engagement portion of the note is omitted
    exactly when the like count is missing, null, zero or an empty text;
    the share and reply counts do not decide it. *)
Theorem engagement_line_omitted_iff (e : Engagement) :
  engagementLine e = "" <-> jsval_truthy (likes e) = false.
Proof.
  unfold engagementLine. destruct (jsval_truthy (likes e)); split; try done.
Qed.

(** C8, the claim as stated fails: with the shares and the replies
    present and the likes null, the engagement portion is omitted. *)
Lemma engagement_omitted_despite_counts :
  has_engagement_data (mkEngagement Null (Num 234) (Num 89)) = true
  /\ engagementLine (mkEngagement Null (Num 234) (Num 89)) = "".
Proof. split; reflexivity. Qed.

(** The note carries the engagement line of its record. *)
Lemma generateNote_engagement w td shotPath rd e st :
  engagement td = Some e ->
  exists before after st',
    generateNote w td shotPath rd st
    = (Ok (before +:+ engagementLine e +:+ after), st').
Proof.
  intros He.
  exists (frontmatter w (before_T (isoTime w (ticks st))) td shotPath
          +:+ nl +:+ nl +:+ noteHead td),
         (noteTail w td shotPath rd),
         (mkState (fs st) (processedScreenshots st) (S (ticks st))).
  unfold generateNote, bind, now, ret, noteBody. rewrite He.
  by rewrite !app_assoc'.
Qed.

End EngagementLine.

(** ** Enrichment *)

Section Enrichment.

Lemma length_zero_false {A} (l : list A) : l <> [] -> (length l =? 0)%nat = false.
Proof. destruct l; [done|]. done. Qed.

Lemma filterResearchResults_total w cfg searchResults td ts :
  tags td = Some ts ->
  exists out, filterResearchResults w cfg searchResults td = Ok out.
Proof.
  intros Ht. unfold filterResearchResults, tags_joined. rewrite Ht. cbn.
  destruct (length searchResults =? 0)%nat; [by eexists|].
  destruct (filter_try w cfg searchResults td); by eexists.
Qed.

Lemma performAutoResearch_total w cfg td :
  exists out, performAutoResearch w cfg td = Ok out.
Proof.
  unfold performAutoResearch.
  destruct (negb (enableAutoResearch cfg)); [by eexists|].
  match goal with |- exists _, match ?r with _ => _ end = _ => destruct r end;
    by eexists.
Qed.

(** C4.  For a non-empty list of raw search results, when the relevance
    filtering call throws, [filterResearchResults] returns every raw
    result, in order, unchanged but for relevance 0.5 and its snippet as
    summary; it does not throw whatever the call does, and
    [performAutoResearch] never throws, so enrichment cannot fail the
    item. *)
Theorem filter_failure_degrades (w : World) (cfg : Config)
    (searchResults : list RawResult) (td : TweetData) (ts : list string) (e : string) :
  searchResults <> [] ->
  tags td = Some ts ->
  filter_reply w searchResults td = Throw e ->
  filterResearchResults w cfg searchResults td = Ok (map unfiltered searchResults)
  /\ (forall i r, searchResults !! i = Some r ->
        exists x, map unfiltered searchResults !! i = Some x
          /\ e_title x = Some (r_title r) /\ e_url x = Some (r_url r)
          /\ e_snippet x = Some (r_snippet r)
          /\ e_relevance x = Some (1 # 2)%Q /\ e_summary x = Some (r_snippet r))
  /\ length (map unfiltered searchResults) = length searchResults
  /\ (forall w', exists out, filterResearchResults w' cfg searchResults td = Ok out)
  /\ (forall w' td', exists out, performAutoResearch w' cfg td' = Ok out).
Proof.
  intros Hne Ht Hthrow. repeat apply conj.
  - unfold filterResearchResults, tags_joined, filter_try.
    rewrite (length_zero_false _ Hne), Ht, Hthrow. reflexivity.
  - intros i r Hi. exists (unfiltered r). split; [|done].
    by rewrite list_lookup_fmap, Hi.
  - apply length_map.
  - intros w'. by apply (filterResearchResults_total w' cfg searchResults td ts).
  - intros w' td'. apply performAutoResearch_total.
Qed.

Lemma filter_failure_degrades_witness :
  filterResearchResults (world_sample td_sample) (cfg_sample false) raw_sample td_sample
  = Ok (map unfiltered raw_sample).
Proof.
  refine (proj1 (filter_failure_degrades (world_sample td_sample) (cfg_sample false)
                   raw_sample td_sample ["ai"; "rag"] "quota exceeded" _ _ _)).
  - discriminate.
  - reflexivity.
  - reflexivity.
Defined.

(** An answer that cannot be read as a list degrades in the same way. *)
Lemma filter_try_failure_degrades w cfg searchResults td ts e :
  searchResults <> [] -> tags td = Some ts ->
  filter_try w cfg searchResults td = Throw e ->
  filterResearchResults w cfg searchResults td = Ok (map unfiltered searchResults).
Proof.
  intros Hne Ht Hthrow. unfold filterResearchResults, tags_joined.
  rewrite (length_zero_false _ Hne), Ht. cbn. by rewrite Hthrow.
Qed.

End Enrichment.

(** ** Frames: what a computation leaves alone *)

Section Frames.

Context (R : State -> State -> Prop) `{!PreOrder R}.

Lemma respects_ret {A} (a : A) : respects R (ret a).
Proof. intros st. reflexivity. Qed.

Lemma respects_throw {A} msg : respects R (@throw A msg).
Proof. intros st. reflexivity. Qed.

Lemma respects_lift {A} (r : result A) : respects R (lift r).
Proof. intros st. reflexivity. Qed.

Lemma respects_get_state : respects R get_state.
Proof. intros st. reflexivity. Qed.

Lemma respects_bind {A B} (m : M A) (k : A -> M B) :
  respects R m -> (forall a, respects R (k a)) -> respects R (bind m k).
Proof.
  intros Hm Hk st. unfold bind. specialize (Hm st).
  destruct (m st) as [[a|e] st1]; simpl in *; [|done].
  etrans; [exact Hm | apply Hk].
Qed.

Lemma respects_try_catch {A} (m : M A) (h : string -> M A) :
  respects R m -> (forall e, respects R (h e)) -> respects R (try_catch m h).
Proof.
  intros Hm Hh st. unfold try_catch. specialize (Hm st).
  destruct (m st) as [[a|e] st1]; simpl in *; [done|].
  etrans; [exact Hm | apply Hh].
Qed.

(** A computation that respects [R] relates the states of any run. *)
Lemma respects_run {A} (m : M A) st r st' :
  respects R m -> m st = (r, st') -> R st st'.
Proof. intros Hm E. specialize (Hm st). by rewrite E in Hm. Qed.

End Frames.

Ltac frame_step :=
  lazymatch goal with
  | |- respects _ (bind _ _) => apply respects_bind; [apply _| |intros ?]
  | |- respects _ (ret _) => apply respects_ret; apply _
  | |- respects _ (throw _) => apply respects_throw; apply _
  | |- respects _ (lift _) => apply respects_lift; apply _
  | |- respects _ get_state => apply respects_get_state; apply _
  | |- respects _ (try_catch _ _) => apply respects_try_catch; [apply _| |intros ?]
  | |- respects _ (if ?b then _ else _) => destruct b eqn:?
  | |- respects _ (match ?x with _ => _ end) => destruct x eqn:?
  end.

Ltac frame_prim :=
  let st := fresh "st" in
  intros st;
  unfold existsSync, mkdirSync, writeFileSync, readFileSync, readdirSync, now,
    set_processed;
  repeat case_bool_decide; repeat case_match; simpl.

#[local] Instance keeps_marker_preorder X : PreOrder (keeps_marker X).
Proof. split; unfold keeps_marker; [intros st; done | intros a b c; auto]. Qed.

#[local] Instance marker_untouched_preorder cfg : PreOrder (marker_untouched cfg).
Proof.
  split; unfold marker_untouched; [intros st; done|].
  intros a b c [H1 H2] [H3 H4]. split; congruence.
Qed.

#[local] Instance files_untouched_preorder : PreOrder files_untouched.
Proof.
  split; unfold files_untouched; [intros st; done|].
  intros a b c (H1 & H2 & H3) (H4 & H5 & H6).
  split; [congruence|]. split; [congruence|].
  etrans; [exact H3 | exact H6].
Qed.

Ltac unfold_pipeline :=
  unfold main, processOne, tryBlock, logIfSaved, classifyAndSave,
    markAsProcessed, logResult, saveNote, generateNote, analyzeScreenshot,
    findNewScreenshots.

(** Repeated [frame_step]; the primitive calls that remain go to [tac]. *)
Ltac frame_with tac :=
  repeat frame_step; try (frame_prim; tac).

(** *** Markers are never removed *)

Section MarkersStay.

Context (X : string).

Ltac marker_tac :=
  unfold keeps_marker, has_marker; simpl; try done;
  intros (? & ?);
  match goal with
  | |- context [<[?k:=_]> _ !! X] =>
    destruct (decide (k = X)) as [Heq|Hne];
    [rewrite Heq, lookup_insert_eq; by eexists
    |rewrite lookup_insert_ne by done; by eexists]
  end.

Lemma findNewScreenshots_keeps cfg : respects (keeps_marker X) (findNewScreenshots cfg).
Proof. unfold_pipeline. frame_with marker_tac. Qed.

Lemma tryBlock_keeps w cfg shot : respects (keeps_marker X) (tryBlock w cfg shot).
Proof. unfold_pipeline. frame_with marker_tac. Qed.

Lemma processAll_keeps w cfg shots c :
  respects (keeps_marker X) (processAll w cfg shots c).
Proof.
  revert c. induction shots as [|shot rest IH]; intros c; simpl.
  - frame_with marker_tac.
  - frame_step; [|apply IH].
    unfold processOne. frame_step; [|frame_with marker_tac].
    frame_step; [apply tryBlock_keeps | frame_with marker_tac].
Qed.

Lemma main_keeps w cfg : respects (keeps_marker X) (main w cfg).
Proof.
  unfold main. frame_step; [apply findNewScreenshots_keeps|].
  frame_step; [frame_with marker_tac|].
  frame_step; [apply processAll_keeps | frame_with marker_tac].
Qed.

End MarkersStay.

(** ** Scanning *)

Section Scanning.

(** What the scanner offers is an image that has no truthy entry in the
    processed set. *)
Lemma findNewScreenshots_offers cfg st shots st' :
  findNewScreenshots cfg st = (Ok shots, st') ->
  forall s, s ∈ shots ->
    is_image (filename s) = true
    /\ falsy_at (processedScreenshots st) (filename s) = true.
Proof.
  unfold findNewScreenshots, bind, existsSync, get_state, readdirSync, mkdirSync, ret.
  cbn beta iota.
  destruct (negb _) eqn:Hthere.
  - repeat case_bool_decide; intros E s Hs; simplify_eq; inversion Hs.
  - destruct (bool_decide (_ ∈ dirs (fs st))); [|done]. intros [= <- <-] s Hs.
    apply list_elem_of_fmap in Hs as (f & -> & Hf).
    apply list_elem_of_filter in Hf as [Hf _]. simpl.
    by apply andb_prop in Hf.
Qed.

(** C2.  For every state of the processed set and every identifier [X]
    that has a marker in it, [findNewScreenshots] does not offer [X]; and
    a run of [main] leaves [X] with a marker, so this holds on every
    later invocation: nothing removes a marker. *)
Theorem scan_skips_marked (cfg : Config) (st : State) (X : string) :
  has_marker X st ->
  (forall shots st', findNewScreenshots cfg st = (Ok shots, st') ->
     X ∉ map filename shots)
  /\ (forall w r st', main w cfg st = (r, st') ->
        has_marker X st'
        /\ forall shots st'', findNewScreenshots cfg st' = (Ok shots, st'') ->
             X ∉ map filename shots).
Proof.
  assert (forall st0, has_marker X st0 ->
            forall shots st', findNewScreenshots cfg st0 = (Ok shots, st') ->
              X ∉ map filename shots) as Hscan.
  { intros st0 (fields & Hm) shots st' Hrun Hin.
    apply list_elem_of_fmap in Hin as (s & -> & Hs).
    destruct (findNewScreenshots_offers _ _ _ _ Hrun s Hs) as [_ Hf].
    unfold falsy_at in Hf. rewrite Hm in Hf. discriminate. }
  intros HX. split; [by apply Hscan|].
  intros w r st' Hrun.
  assert (has_marker X st') as HX'.
  { by apply (respects_run (keeps_marker X) (main w cfg) st r st' (main_keeps X w cfg) Hrun). }
  split; [exact HX' | by apply Hscan].
Qed.

(** What [markAsProcessed] stores is a marker, also when the write of
    the file fails afterwards. *)
Lemma markAsProcessed_marks w cfg name st :
  has_marker name (markAsProcessed w cfg name st).2.
Proof.
  unfold markAsProcessed, bind, now, set_processed, get_state, writeFileSync, ret.
  cbn. destruct (dryRun cfg); cbn; repeat case_bool_decide; cbn;
    eexists; apply lookup_insert_eq.
Qed.

Lemma scan_skips_marked_witness :
  has_marker "seen.png" st_sample
  /\ forall shots st', findNewScreenshots (cfg_sample false) st_sample = (Ok shots, st') ->
       "seen.png" ∉ map filename shots.
Proof.
  assert (has_marker "seen.png" st_sample) as H by (eexists; reflexivity).
  split; [exact H|].
  exact (proj1 (scan_skips_marked (cfg_sample false) st_sample "seen.png" H)).
Defined.

Example scan_sample :
  map filename (default [] (match (findNewScreenshots (cfg_sample false) st_sample).1 with
                            | Ok l => Some l | Throw _ => None end))
  ≡ₚ ["one.png"; "two.jpg"].
Proof. vm_compute. by rewrite (Permutation_swap "two.jpg" "one.png" []). Qed.

End Scanning.

(** ** The batch loop *)

Section Batch.

Lemma bind_ok_inv {A B} (m : M A) (k : A -> M B) st b st' :
  bind m k st = (Ok b, st') ->
  exists a st1, m st = (Ok a, st1) /\ k a st1 = (Ok b, st').
Proof.
  unfold bind. destruct (m st) as [[a|e] st1]; intros H; [|done]. by exists a, st1.
Qed.

Lemma bind_throw_inv {A B} (m : M A) (k : A -> M B) st e st' :
  bind m k st = (Throw e, st') ->
  m st = (Throw e, st')
  \/ exists a st1, m st = (Ok a, st1) /\ k a st1 = (Throw e, st').
Proof.
  unfold bind. destruct (m st) as [[a|e0] st1]; intros H; [|left; by simplify_eq].
  right. by exists a, st1.
Qed.

(** [saveNote] reports a save unless the run is a dry run. *)
Lemma saveNote_saved cfg td note shot st r st' :
  saveNote cfg td note shot st = (Ok r, st') -> saved r || dryRun cfg = true.
Proof.
  unfold saveNote. intros H.
  apply bind_ok_inv in H as (there & st1 & _ & H).
  apply bind_ok_inv in H as (? & st2 & _ & H).
  destruct (title td); [|done].
  destruct (dryRun cfg); [by rewrite orb_true_r|].
  apply bind_ok_inv in H as (? & st3 & _ & H).
  injection H as <- _. done.
Qed.

Lemma classifyAndSave_saved w cfg shot st td r st' :
  classifyAndSave w cfg shot st = (Ok (td, r), st') -> saved r || dryRun cfg = true.
Proof.
  unfold classifyAndSave. intros H.
  do 5 (apply bind_ok_inv in H as (? & ? & _ & H)).
  apply bind_ok_inv in H as (r' & ? & Hs & H).
  injection H as <- <- _. by apply saveNote_saved in Hs.
Qed.

(** When the [try] block returns, [processed++] was reached. *)
Lemma tryBlock_counted w cfg shot st b st' :
  tryBlock w cfg shot st = (Ok b, st') -> b = true.
Proof.
  unfold tryBlock. intros H.
  apply bind_ok_inv in H as ([td r] & st1 & Hc & H).
  rewrite (classifyAndSave_saved _ _ _ _ _ _ _ Hc) in H.
  repeat (apply bind_ok_inv in H as (? & ? & _ & H)).
  by injection H as <- _.
Qed.

Lemma processOne_counts w cfg shot c st :
  exists c' st', processOne w cfg shot c st = (Ok c', st')
    /\ ((processed c' = S (processed c) /\ failed c' = failed c)
        \/ (processed c' = processed c /\ failed c' = S (failed c))).
Proof.
  unfold processOne, try_catch, bind at 1.
  destruct (tryBlock w cfg shot st) as [[b|e] st1] eqn:E.
  - rewrite (tryBlock_counted _ _ _ _ _ _ E). cbn. eexists _, _. split; [done|]. by left.
  - cbn. eexists _, _. split; [done|]. by right.
Qed.

Lemma processAll_counts w cfg shots c st :
  exists c' st', processAll w cfg shots c st = (Ok c', st')
    /\ processed c' + failed c' = processed c + failed c + length shots.
Proof.
  revert c st. induction shots as [|shot rest IH]; intros c st.
  - exists c, st. split; [done|]. simpl. lia.
  - destruct (processOne_counts w cfg shot c st) as (c1 & st1 & E1 & Hc).
    destruct (IH c1 st1) as (c2 & st2 & E2 & Hs).
    exists c2, st2. split.
    + cbn [processAll]. unfold bind. by rewrite E1.
    + simpl. lia.
Qed.

(** C9.  Each discovered item increments exactly one of the two counters
    and the loop never throws, so at the summary the processed and the
    failed items add up to the discovered ones, in a live run and in a
    dry run alike. *)
Theorem counters_partition (w : World) (cfg : Config) :
  (forall shot c st,
     exists c' st', processOne w cfg shot c st = (Ok c', st')
       /\ ((processed c' = S (processed c) /\ failed c' = failed c)
           \/ (processed c' = processed c /\ failed c' = S (failed c))))
  /\ (forall st shots st1,
        findNewScreenshots cfg st = (Ok shots, st1) ->
        shots <> [] ->
        exists c st', main w cfg st = (Ok (Some c), st')
          /\ processed c + failed c = length shots).
Proof.
  split; [apply processOne_counts|].
  intros st shots st1 Hscan Hne.
  destruct (processAll_counts w cfg shots (mkCounters 0 0) st1) as (c & st' & E & Hc).
  exists c, st'. split; [|simpl in Hc; lia].
  unfold main, bind. rewrite Hscan.
  destruct shots; [done|]. cbn [length Nat.eqb]. by rewrite E.
Qed.

(** The scenario of the sample vault, live: both items go to the
    resources folder, the log is written and both get their marker. *)
Example end_to_end_sample :
  let st' := (main (world_sample td_sample) (cfg_sample false) st_sample).2 in
  is_Some (files (fs st')
             !! "/vault/03 - Resources/X Insights/building-rag-systems-with-claude.md")
  /\ is_Some (files (fs st') !! logPath (cfg_sample false))
  /\ has_marker "one.png" st' /\ has_marker "two.jpg" st'.
Proof.
  repeat split; try (apply (bool_decide_unpack _); vm_compute; exact I);
    eexists; vm_compute; reflexivity.
Qed.

Example counters_sample_live :
  (main (world_sample td_sample) (cfg_sample false) st_sample).1
  = Ok (Some (mkCounters 2 0)).
Proof. vm_compute. reflexivity. Qed.

End Batch.

(** ** Marking *)

Section Marking.

Lemma last_byte_app (x y : string) : y <> "" -> last_byte (x +:+ y) = last_byte y.
Proof.
  intros Hy. induction x as [|c x IH]; [done|].
  rewrite app_cons. cbn [last_byte]. rewrite IH.
  destruct (x +:+ y) eqn:E; [|done].
  destruct x; [|done]. by rewrite app_empty_l in E.
Qed.

Lemma last_byte_path_join a b : b <> "" -> last_byte (path_join a b) = last_byte b.
Proof.
  intros Hb. unfold path_join. rewrite last_byte_app; [|by destruct b].
  apply (last_byte_app "/" b Hb).
Qed.

Lemma last_byte_processedFile cfg : last_byte (processedFile cfg) = Some "n"%char.
Proof. unfold processedFile. by rewrite last_byte_path_join. Qed.

(** A note is never the file of the processed set, nor is the log. *)
Lemma note_not_processedFile cfg a t : path_join a (noteFilename t) <> processedFile cfg.
Proof.
  intros E. apply (f_equal last_byte) in E.
  rewrite last_byte_processedFile, last_byte_path_join in E.
  - unfold noteFilename in E. by rewrite last_byte_app in E.
  - unfold noteFilename. by destruct (sanitize t).
Qed.

Lemma log_not_processedFile cfg : path_join (vaultPath cfg) logFile <> processedFile cfg.
Proof.
  intros E. apply (f_equal last_byte) in E.
  by rewrite last_byte_processedFile, last_byte_path_join in E.
Qed.

Ltac untouched_tac :=
  unfold marker_untouched; simpl; split; try done;
  rewrite lookup_insert_ne
    by (apply note_not_processedFile || apply log_not_processedFile);
  done.

Lemma classifyAndSave_untouched w cfg shot :
  respects (marker_untouched cfg) (classifyAndSave w cfg shot).
Proof. unfold_pipeline. frame_with untouched_tac. Qed.

Lemma logIfSaved_untouched w cfg shot td res :
  respects (marker_untouched cfg) (logIfSaved w cfg shot td res).
Proof. unfold_pipeline. frame_with untouched_tac. Qed.

Lemma beforeMarking_untouched w cfg shot :
  respects (marker_untouched cfg) (beforeMarking w cfg shot).
Proof.
  unfold beforeMarking. frame_step; [apply classifyAndSave_untouched|].
  frame_step; [|frame_with untouched_tac].
  frame_step; [apply logIfSaved_untouched | frame_with untouched_tac].
Qed.

(** The [try] block is [beforeMarking], then the marking. *)
Lemma tryBlock_split w cfg shot st :
  tryBlock w cfg shot st
  = (do tr <- beforeMarking w cfg shot;
     if saved tr.2 || dryRun cfg then
       do_ markAsProcessed w cfg (filename shot); ret true
     else ret false) st.
Proof.
  unfold tryBlock, beforeMarking, bind.
  destruct (classifyAndSave w cfg shot st) as [[[td res]|e] st1]; [|done].
  cbn [fst snd]. destruct (saved res || dryRun cfg) eqn:E; cbn.
  - destruct (logIfSaved w cfg shot td res st1) as [[[]|e] st2]; [|done].
    cbn. by rewrite E.
  - by rewrite E.
Qed.

Lemma writeFileSync_throw p content st e st' :
  writeFileSync p content st = (Throw e, st') -> st' = st.
Proof.
  unfold writeFileSync. repeat case_bool_decide; by intros [= _ <-].
Qed.

Lemma ensure_dir_files (there : bool) p :
  respects files_untouched (if negb there then mkdirSync p else ret tt).
Proof.
  frame_with ltac:(unfold files_untouched; simpl; repeat apply conj; try done; set_solver).
Qed.

(** No file is written by a [saveNote] that throws, nor by the steps
    before it. *)
Lemma saveNote_throw_files cfg td note shot st e st' :
  saveNote cfg td note shot st = (Throw e, st') -> files_untouched st st'.
Proof.
  unfold saveNote. intros H.
  apply bind_throw_inv in H as [H | (there & st1 & H1 & H)]; [done|].
  injection H1 as _ <-.
  apply bind_throw_inv in H as [H | ([] & st2 & H2 & H)].
  { by apply (respects_run files_untouched _ _ _ _ (ensure_dir_files _ _) H). }
  pose proof (respects_run files_untouched _ _ _ _ (ensure_dir_files _ _) H2) as R2.
  destruct (title td); [|by injection H as _ <-].
  destruct (dryRun cfg); [done|].
  apply bind_throw_inv in H as [H | (? & st3 & _ & H)]; [|done].
  by rewrite (writeFileSync_throw _ _ _ _ _ H).
Qed.

Lemma generateNote_files w td p rd : respects files_untouched (generateNote w td p rd).
Proof. unfold_pipeline. frame_with ltac:(unfold files_untouched; simpl; done). Qed.

Lemma classifyAndSave_throw_files w cfg shot st e st' :
  classifyAndSave w cfg shot st = (Throw e, st') -> files_untouched st st'.
Proof.
  unfold classifyAndSave, analyzeScreenshot. intros H.
  apply bind_throw_inv in H as [H | (td & st1 & H1 & H)].
  { unfold lift in H. by simplify_eq. }
  unfold lift in H1. injection H1 as _ <-.
  apply bind_throw_inv in H as [H | (? & st2 & H2 & H)].
  { unfold lift in H. by simplify_eq. }
  unfold lift in H2. injection H2 as _ <-.
  apply bind_throw_inv in H as [H | (? & st3 & H3 & H)].
  { unfold lift in H. by simplify_eq. }
  unfold lift in H3. injection H3 as _ <-.
  apply bind_throw_inv in H as [H | (rd & st4 & H4 & H)].
  { unfold lift in H. by simplify_eq. }
  unfold lift in H4. injection H4 as _ <-.
  apply bind_throw_inv in H as [H | (note & st5 & H5 & H)].
  { by apply (respects_run files_untouched _ _ _ _ (generateNote_files _ _ _ _) H). }
  pose proof (respects_run files_untouched _ _ _ _ (generateNote_files _ _ _ _) H5) as R5.
  apply bind_throw_inv in H as [H | (res & st6 & H6 & H)].
  - etrans; [exact R5 | by apply saveNote_throw_files in H].
  - unfold ret in H. done.
Qed.

Lemma path_join_nonempty a b : path_join a b <> "".
Proof. unfold path_join. destruct a; rewrite ?app_cons, ?app_empty_l; done. Qed.

Lemma saveNote_live cfg td note shot st res st' :
  dryRun cfg = false ->
  saveNote cfg td note shot st = (Ok res, st') ->
  exists t, title td = Some t
    /\ res = mkSaveResult true
               (Some (path_join (path_join (vaultPath cfg) (targetDir cfg td)) (noteFilename t)))
    /\ files (fs st')
         !! path_join (path_join (vaultPath cfg) (targetDir cfg td)) (noteFilename t)
       = Some note.
Proof.
  intros Hdry. unfold saveNote. rewrite Hdry. intros H.
  apply bind_ok_inv in H as (there & st1 & _ & H).
  apply bind_ok_inv in H as (? & st2 & _ & H).
  destruct (title td) as [t|]; [|done]. exists t. split; [done|].
  apply bind_ok_inv in H as (? & st3 & Hw & H).
  injection H as <- <-. split; [done|].
  unfold writeFileSync in Hw. repeat case_bool_decide; simplify_eq.
  simpl. apply lookup_insert_eq.
Qed.

Lemma classifyAndSave_live w cfg shot st td res st' :
  dryRun cfg = false ->
  classifyAndSave w cfg shot st = (Ok (td, res), st') ->
  exists p note, saved res = true /\ path res = Some p /\ p <> ""
    /\ files (fs st') !! p = Some note.
Proof.
  intros Hdry. unfold classifyAndSave. intros H.
  do 4 (apply bind_ok_inv in H as (? & ? & _ & H)).
  apply bind_ok_inv in H as (note & ? & _ & H).
  apply bind_ok_inv in H as (r' & ? & Hs & H).
  injection H as <- <- <-.
  destruct (saveNote_live _ _ _ _ _ _ _ Hdry Hs) as (t & _ & -> & Hf).
  eexists _, note. split; [reflexivity|]. split; [reflexivity|]. split; [|exact Hf].
  apply path_join_nonempty.
Qed.

Lemma logResult_live w cfg td shot p st st' :
  dryRun cfg = false ->
  logResult w cfg td shot p st = (Ok tt, st') ->
  exists logContent entry,
    files (fs st') !! path_join (vaultPath cfg) logFile
    = Some (insertEntry logContent entry).
Proof.
  intros Hdry. unfold logResult. rewrite Hdry. intros H.
  apply bind_ok_inv in H as (timestamp & ? & _ & H).
  apply bind_ok_inv in H as (there & ? & _ & H).
  apply bind_ok_inv in H as (logContent & ? & _ & H).
  apply bind_ok_inv in H as (joined & ? & _ & H).
  cbn [negb] in H. eexists logContent, _.
  unfold writeFileSync in H. repeat case_bool_decide; simplify_eq.
  simpl. apply lookup_insert_eq.
Qed.

Lemma beforeMarking_ok_inv w cfg shot st tr st2 :
  beforeMarking w cfg shot st = (Ok tr, st2) ->
  saved tr.2 || dryRun cfg = true
  /\ exists st1, classifyAndSave w cfg shot st = (Ok tr, st1)
       /\ logIfSaved w cfg shot tr.1 tr.2 st1 = (Ok tt, st2).
Proof.
  unfold beforeMarking. intros H.
  apply bind_ok_inv in H as ([td res] & st1 & Hc & H).
  pose proof (classifyAndSave_saved _ _ _ _ _ _ _ Hc) as Hs.
  cbn [fst snd] in H. rewrite Hs in H.
  apply bind_ok_inv in H as ([] & st2' & Hl & H).
  injection H as <- <-. split; [exact Hs|]. by exists st1.
Qed.

(** What a live [classifyAndSave] that returned has done: the note that
    [generateNote] made of the record is in the file that the routing
    and the title name. *)
Lemma classifyAndSave_ok_inv w cfg shot st td res st1 :
  dryRun cfg = false ->
  classifyAndSave w cfg shot st = (Ok (td, res), st1) ->
  exists t ts rd note st0,
    vision_reply w (fullPath shot) = Ok td
    /\ title td = Some t /\ tags td = Some ts
    /\ performAutoResearch w cfg td = Ok rd
    /\ generateNote w td (relativePath shot) rd st = (Ok note, st0)
    /\ res = mkSaveResult true (Some (notePath cfg td t))
    /\ files (fs st1) !! notePath cfg td t = Some note.
Proof.
  intros Hdry. unfold classifyAndSave, analyzeScreenshot. intros H.
  apply bind_ok_inv in H as (td' & s1 & H1 & H). injection H1 as H1 <-.
  apply bind_ok_inv in H as (? & s2 & H2 & H). injection H2 as _ <-.
  apply bind_ok_inv in H as (? & s3 & H3 & H). injection H3 as H3 <-.
  apply bind_ok_inv in H as (rd & s4 & H4 & H). injection H4 as H4 <-.
  apply bind_ok_inv in H as (note & st0 & H5 & H).
  apply bind_ok_inv in H as (r' & s6 & Hs & H).
  injection H as <- <- <-.
  destruct (saveNote_live _ _ _ _ _ _ _ Hdry Hs) as (t & Ht & -> & Hf).
  unfold tags_joined in H3. destruct (tags td') as [ts|] eqn:Hts; [|done].
  by exists t, ts, rd, note, st0.
Qed.

(** What a live [logResult] that returned has written. *)
Lemma logResult_ok_inv w cfg td shot p st st' :
  dryRun cfg = false ->
  logResult w cfg td shot p st = (Ok tt, st') ->
  exists ts, tags td = Some ts
    /\ files (fs st') !! logPath cfg
       = Some (insertEntry (current_log cfg st)
                 (logEntry w (isoTime w (ticks st)) td (join ", " ts) shot p)).
Proof.
  intros Hdry.
  unfold logResult, bind, now, existsSync, readFileSync, lift, tags_joined,
    writeFileSync, ret, current_log.
  fold (logPath cfg). cbn [fs files dirs denied processedScreenshots ticks].
  rewrite Hdry. cbn [negb].
  destruct (files (fs st) !! logPath cfg) as [content|] eqn:E; cbn;
    rewrite ?E; cbn;
    repeat case_bool_decide; cbn; rewrite ?E; cbn;
    destruct (tags td) as [ts|]; cbn;
    repeat case_bool_decide; cbn;
    intros Hrun; try discriminate Hrun;
    injection Hrun as <-; exists ts; (split; [reflexivity|]); cbn;
    apply lookup_insert_eq.
Qed.

(** In a dry run [saveNote] reports that nothing was saved. *)
Lemma classifyAndSave_dry w cfg shot st td res st1 :
  dryRun cfg = true ->
  classifyAndSave w cfg shot st = (Ok (td, res), st1) ->
  res = mkSaveResult false None.
Proof.
  intros Hdry. unfold classifyAndSave. intros H.
  do 5 (apply bind_ok_inv in H as (? & ? & _ & H)).
  apply bind_ok_inv in H as (r' & ? & Hs & H).
  injection H as <- <- _.
  unfold saveNote in Hs. rewrite Hdry in Hs.
  apply bind_ok_inv in Hs as (? & ? & _ & Hs).
  apply bind_ok_inv in Hs as (? & ? & _ & Hs).
  destruct (title x); [|done]. by injection Hs as <- _.
Qed.

(** C5, as amended.  The marker of an item is written only after the
    note was saved and the log was written (in a dry run: after the
    pipeline went through, nothing saved and nothing logged); when
    classification, formatting or saving throws, and likewise when
    logging throws, the item fails with the processed set as it was, in
    memory and on disk, and when the throw comes from classification,
    formatting or saving no file at all has been written.  In a live
    run the note is what [generateNote] made of the record, in the file
    that routing and title name, and the log holds the item's entry
    spliced into the log as it stood.  Nothing is said of folders: what
    [saveNote] created is not rolled back. *)
Theorem marker_after_commit (w : World) (cfg : Config) (shot : Screenshot)
    (st : State) (r : result bool) (st' : State) :
  tryBlock w cfg shot st = (r, st') ->
  (forall e st1, classifyAndSave w cfg shot st = (Throw e, st1) ->
     r = Throw e /\ st' = st1 /\ marker_untouched cfg st st' /\ files_untouched st st')
  /\ (forall e st1, beforeMarking w cfg shot st = (Throw e, st1) ->
        r = Throw e /\ st' = st1 /\ marker_untouched cfg st st')
  /\ (~ marker_untouched cfg st st' ->
      exists td res st1 st2,
        classifyAndSave w cfg shot st = (Ok (td, res), st1)
        /\ logIfSaved w cfg shot td res st1 = (Ok tt, st2)
        /\ marker_untouched cfg st st2
        /\ (do_ markAsProcessed w cfg (filename shot); ret true) st2 = (r, st')
        /\ (dryRun cfg = true -> res = mkSaveResult false None /\ st2 = st1)
        /\ (dryRun cfg = false ->
            exists t ts rd note st0,
              vision_reply w (fullPath shot) = Ok td
              /\ title td = Some t /\ tags td = Some ts
              /\ performAutoResearch w cfg td = Ok rd
              /\ generateNote w td (relativePath shot) rd st = (Ok note, st0)
              /\ res = mkSaveResult true (Some (notePath cfg td t))
              /\ files (fs st1) !! notePath cfg td t = Some note
              /\ files (fs st2) !! logPath cfg
                 = Some (insertEntry (current_log cfg st1)
                           (logEntry w (isoTime w (ticks st1)) td (join ", " ts) shot
                              (notePath cfg td t))))).
Proof.
  intros Hrun. rewrite tryBlock_split in Hrun.
  assert (forall e st1, beforeMarking w cfg shot st = (Throw e, st1) ->
            r = Throw e /\ st' = st1 /\ marker_untouched cfg st st') as Hbefore.
  { intros e st1 Hb. unfold bind in Hrun. rewrite Hb in Hrun.
    injection Hrun as <- <-. split; [done|]. split; [done|].
    by apply (respects_run _ _ _ _ _ (beforeMarking_untouched w cfg shot) Hb). }
  split; [|split].
  - intros e st1 Hc.
    assert (beforeMarking w cfg shot st = (Throw e, st1)) as Hb
      by (unfold beforeMarking, bind; by rewrite Hc).
    destruct (Hbefore e st1 Hb) as (-> & -> & Hm).
    split; [done|]. split; [done|]. split; [exact Hm|].
    by apply classifyAndSave_throw_files in Hc.
  - exact Hbefore.
  - intros Hchanged.
    destruct (beforeMarking w cfg shot st) as [[[td res]|e] st2] eqn:Hb.
    + destruct (beforeMarking_ok_inv _ _ _ _ _ _ Hb) as (Hs & st1 & Hc & Hl).
      cbn [fst snd] in *.
      exists td, res, st1, st2.
      split; [exact Hc|]. split; [exact Hl|]. split; [|split; [|split]].
      * by apply (respects_run _ _ _ _ _ (beforeMarking_untouched w cfg shot) Hb).
      * unfold bind at 1 in Hrun. rewrite Hb in Hrun. cbn [fst snd] in Hrun.
        by rewrite Hs in Hrun.
      * intros Hdry. pose proof (classifyAndSave_dry _ _ _ _ _ _ _ Hdry Hc) as Hres.
        split; [exact Hres|]. rewrite Hres in Hl. unfold logIfSaved in Hl. cbn in Hl.
        by injection Hl as <-.
      * intros Hdry.
        destruct (classifyAndSave_ok_inv _ _ _ _ _ _ _ Hdry Hc)
          as (t & ts & rd & note & st0 & H1 & H2 & H3 & H4 & H5 & H6 & H7).
        rewrite H6 in Hl. unfold logIfSaved in Hl. cbn [path] in Hl.
        rewrite bool_decide_false in Hl by apply path_join_nonempty.
        destruct (logResult_ok_inv _ _ _ _ _ _ _ Hdry Hl) as (ts' & H8 & H9).
        assert (ts' = ts) as -> by congruence.
        by exists t, ts, rd, note, st0.
    + destruct (Hbefore e st2 eq_refl) as (_ & _ & Hm). done.
Qed.

Lemma marker_after_commit_witness :
  let w := world_sample td_malformed in
  let run := tryBlock w (cfg_sample false) shot_sample st_sample in
  run.1 = Throw "TypeError"
  /\ marker_untouched (cfg_sample false) st_sample run.2
  /\ files_untouched st_sample run.2.
Proof.
  intros w run.
  destruct (marker_after_commit w (cfg_sample false) shot_sample st_sample
              run.1 run.2 (surjective_pairing run)) as (H & _).
  destruct (H "TypeError" (classifyAndSave w (cfg_sample false) shot_sample st_sample).2)
    as (H1 & _ & H3 & H4).
  - vm_compute. reflexivity.
  - split; [exact H1|]. split; [exact H3 | exact H4].
Defined.

(** C5, the counterexample.  An item whose record has no title fails in
    [saveNote], after the folder for the note was created: the item
    throws, no marker is written, and the state has changed all the
    same. *)
Lemma failed_item_leaves_folder :
  let run := tryBlock (world_sample td_untitled) (cfg_sample false) shot_sample
               st_sample in
  run.1 = Throw "TypeError"
  /\ marker_untouched (cfg_sample false) st_sample run.2
  /\ ("/vault/03 - Resources/X Insights" ∉ dirs (fs st_sample))
  /\ ("/vault/03 - Resources/X Insights" ∈ dirs (fs run.2))
  /\ run.2 <> st_sample.
Proof.
  intros run.
  assert ("/vault/03 - Resources/X Insights" ∉ dirs (fs st_sample)) as Hnot
    by (apply (bool_decide_unpack _); vm_compute; exact I).
  assert ("/vault/03 - Resources/X Insights" ∈ dirs (fs run.2)) as Hin
    by (apply (bool_decide_unpack _); vm_compute; exact I).
  split; [vm_compute; reflexivity|]. split.
  - split; vm_compute; reflexivity.
  - split; [exact Hnot|]. split; [exact Hin|].
    intros E. rewrite E in Hin. by apply Hnot.
Qed.

End Marking.

(** ** Dry runs *)

Section DryRun.

Context (w : World) (cfg : Config) (Hdry : dryRun cfg = true).

Ltac files_tac :=
  first
    [ exfalso;
      repeat match goal with
             | H : negb _ = true |- _ => apply negb_true_iff in H
             | H : negb _ = false |- _ => apply negb_false_iff in H
             end; congruence
    | unfold files_untouched; simpl; repeat apply conj; try done; set_solver ].

Lemma findNewScreenshots_dry : respects files_untouched (findNewScreenshots cfg).
Proof. unfold_pipeline. frame_with files_tac. Qed.

Lemma tryBlock_dry shot : respects files_untouched (tryBlock w cfg shot).
Proof. unfold_pipeline. frame_with files_tac. Qed.

Lemma processAll_dry shots c : respects files_untouched (processAll w cfg shots c).
Proof.
  revert c. induction shots as [|shot rest IH]; intros c; simpl.
  - frame_with files_tac.
  - frame_step; [|apply IH].
    unfold processOne. frame_step; [|frame_with files_tac].
    frame_step; [apply tryBlock_dry | frame_with files_tac].
Qed.

(** What does hold in a dry run: no file is written or changed, be it
    a note, the log or the file of the processed set; directories can
    only be added. *)
Lemma dry_run_writes_no_file : respects files_untouched (main w cfg).
Proof.
  unfold main. frame_step; [apply findNewScreenshots_dry|].
  frame_step; [frame_with files_tac|].
  frame_step; [apply processAll_dry | frame_with files_tac].
Qed.

End DryRun.

(** A dry run over a vault without the screenshots folder finds nothing
    and creates that folder and the folders above it. *)
Example dry_run_creates_screenshots_directory :
  let run := main (world_sample td_sample) (cfg_sample true)
               (mkState (mkFS ∅ ∅ ∅) ∅ 0) in
  run.1 = Ok None
  /\ dirs (fs run.2)
     = {[ "/vault"; "/vault/Attachments"; "/vault/Attachments/Xeets" ]}.
Proof. split; vm_compute; reflexivity. Qed.

(** C3, at the failing input.  A dry run over the sample vault, whose
    folder for resources does not exist yet, reports both items and
    writes no file, but it creates that folder: [saveNote] calls
    [mkdirSync] before it looks at the dry-run flag. *)
Theorem dry_run_creates_directory :
  let run := main (world_sample td_sample) (cfg_sample true) st_sample in
  run.1 = Ok (Some (mkCounters 2 0))
  /\ files (fs run.2) = files (fs st_sample)
  /\ ("/vault/03 - Resources/X Insights" ∉ dirs (fs st_sample))
  /\ ("/vault/03 - Resources/X Insights" ∈ dirs (fs run.2)).
Proof.
  intros run. split; [vm_compute; reflexivity|]. split.
  - apply (dry_run_writes_no_file (world_sample td_sample) (cfg_sample true) eq_refl st_sample).
  - split.
    + apply (bool_decide_unpack _). vm_compute. exact I.
    + apply (bool_decide_unpack _). vm_compute. exact I.
Qed.

(** ** The log *)

Section Log.

Lemma prefix_app (n post : string) : String.prefix n (n +:+ post) = true.
Proof.
  induction n as [|c n IH]; [by destruct post|].
  rewrite app_cons. simpl. destruct (ascii_dec c c); [exact IH | done].
Qed.

Lemma indexOf_nonneg_or_minus1 n h : (indexOf n h = -1 \/ 0 <= indexOf n h)%Z.
Proof.
  induction h as [|c h IH]; cbn [indexOf].
  - destruct (String.prefix n ""); lia.
  - destruct (String.prefix n (String c h)); [lia|].
    destruct (indexOf n h <? 0)%Z eqn:E; [lia|]. apply Z.ltb_ge in E. lia.
Qed.

(** The index is at most the position of any occurrence. *)
Lemma indexOf_bound n pre post :
  (0 <= indexOf n (pre +:+ n +:+ post) <= Z.of_nat (String.length pre))%Z.
Proof.
  induction pre as [|c pre IH].
  - rewrite app_empty_l. pose proof (prefix_app n post) as H.
    destruct (n +:+ post) eqn:E; cbn [indexOf]; rewrite H; simpl; lia.
  - rewrite app_cons. cbn [indexOf String.length].
    destruct (String.prefix n _); [lia|].
    destruct (indexOf n (pre +:+ n +:+ post) <? 0)%Z eqn:E.
    + apply Z.ltb_lt in E. lia.
    + lia.
Qed.

Lemma prefix_inv n h : String.prefix n h = true -> exists post, h = n +:+ post.
Proof.
  revert h. induction n as [|c n IH]; intros h H.
  - by exists h.
  - destruct h as [|c' h]; [done|]. simpl in H.
    destruct (ascii_dec c c') as [->|]; [|done].
    destruct (IH h H) as (post & ->). by exists post.
Qed.

(** The index, when it is not negative, is the position of an occurrence. *)
Lemma indexOf_sound n h :
  (0 <= indexOf n h)%Z ->
  exists pre post, h = pre +:+ n +:+ post
    /\ Z.of_nat (String.length pre) = indexOf n h.
Proof.
  induction h as [|c h IH].
  - cbn [indexOf]. destruct (String.prefix n "") eqn:E; [|lia]. intros _.
    destruct (prefix_inv _ _ E) as (post & Hp). by exists "", post.
  - cbn [indexOf]. destruct (String.prefix n (String c h)) eqn:E.
    + intros _. destruct (prefix_inv _ _ E) as (post & Hp). by exists "", post.
    + destruct (indexOf n h <? 0)%Z eqn:Ei; [lia|]. intros _.
      apply Z.ltb_ge in Ei. destruct (IH Ei) as (pre & post & -> & Hl).
      exists (String c pre), post. split; [done|]. simpl. lia.
Qed.

Lemma indexOf_first n h pre post :
  first_occurrence n h pre post -> indexOf n h = Z.of_nat (String.length pre).
Proof.
  intros [-> Hmin]. pose proof (indexOf_bound n pre post) as [H0 H1].
  destruct (indexOf_sound n _ H0) as (pre2 & post2 & E & Hl).
  specialize (Hmin pre2 post2 E). lia.
Qed.

Lemma slice_to_app (x y : string) : slice_to (String.length x) (x +:+ y) = x.
Proof.
  induction x as [|c x IH]; [rewrite app_empty_l; by destruct y|].
  rewrite app_cons. simpl. by rewrite IH.
Qed.

Lemma slice_from_app (x y : string) : slice_from (String.length x) (x +:+ y) = y.
Proof.
  induction x as [|c x IH]; [rewrite app_empty_l; by destruct y|].
  rewrite app_cons. simpl. by rewrite IH.
Qed.

Lemma slice_units_zero s : slice_units false 0 s = ("", s).
Proof. destruct s as [|c r]; [done|]. cbn. by destruct (is_continuation c). Qed.

Lemma slice_units_ascii inside c rest k :
  (nat_of_ascii c <? 128) = true ->
  slice_units inside (S k) (String c rest)
  = (String c (slice_units false k rest).1, (slice_units false k rest).2).
Proof.
  intros Hc%Nat.ltb_lt. cbn [slice_units]. unfold is_continuation, is_astral_lead.
  rewrite (proj2 (Nat.leb_gt 128 _)) by lia. cbn [andb].
  rewrite (proj2 (Nat.leb_gt 240 _)) by lia.
  by destruct (slice_units false k rest).
Qed.

(** Slicing behind [pre] and one ASCII character more. *)
Lemma slice_units_app inside pre c rest k :
  (nat_of_ascii c <? 128) = true ->
  slice_units inside (units pre + S k) (pre +:+ String c rest)
  = (pre +:+ String c (slice_units false k rest).1, (slice_units false k rest).2).
Proof.
  intros Hc%Nat.ltb_lt. revert inside. induction pre as [|d pre IH]; intros inside.
  - rewrite !app_empty_l. cbn [units Nat.add].
    apply slice_units_ascii. by apply Nat.ltb_lt.
  - rewrite !app_cons. cbn [units slice_units].
    destruct (is_continuation d).
    + cbn [Nat.add]. replace (0 <? units pre + S k) with true
        by (symmetry; apply Nat.ltb_lt; lia).
      rewrite orb_true_r, IH. by destruct (slice_units false k rest).
    + destruct (is_astral_lead d); cbn [Nat.add].
      * rewrite IH. by destruct (slice_units false k rest).
      * rewrite IH. by destruct (slice_units false k rest).
Qed.

Lemma slice_units_5 post : slice_units false 5 (separator +:+ post) = (separator, post).
Proof.
  unfold separator, nl. repeat (rewrite app_cons || rewrite app_empty_l).
  do 5 (rewrite slice_units_ascii by reflexivity; cbn [fst snd]).
  by rewrite slice_units_zero.
Qed.

(** Slicing right behind the separator that follows [pre]. *)
Lemma slice_units_separator pre post :
  slice_units false (units pre + 5) (pre +:+ separator +:+ post)
  = (pre +:+ separator, post).
Proof.
  unfold separator, nl. repeat (rewrite app_cons || rewrite app_empty_l).
  replace (units pre + 5) with (units pre + S 4) by lia.
  rewrite slice_units_app by reflexivity.
  do 4 (rewrite slice_units_ascii by reflexivity; cbn [fst snd]).
  by rewrite slice_units_zero.
Qed.

Lemma indexOf_units_first n h pre post :
  first_occurrence n h pre post -> indexOf_units n h = Z.of_nat (units pre).
Proof.
  intros Hf. unfold indexOf_units. rewrite (indexOf_first _ _ _ _ Hf).
  destruct Hf as [-> _].
  rewrite (proj2 (Z.ltb_ge _ _)) by lia.
  by rewrite Nat2Z.id, slice_to_app.
Qed.

(** The entry goes right after the first separator. *)
Lemma insertEntry_first logContent entry pre post :
  first_occurrence separator logContent pre post ->
  insertEntry logContent entry = pre +:+ separator +:+ entry +:+ post.
Proof.
  intros Hf. unfold insertEntry. rewrite (indexOf_units_first _ _ _ _ Hf).
  destruct Hf as [-> _].
  replace (Z.to_nat (Z.of_nat (units pre) + 5)) with (units pre + 5) by lia.
  rewrite slice_units_separator. by rewrite !app_assoc'.
Qed.

Lemma prefix_app_true n h r :
  String.prefix n h = true -> String.prefix n (h +:+ r) = true.
Proof.
  intros H. destruct (prefix_inv _ _ H) as (post & ->).
  rewrite app_assoc'. apply prefix_app.
Qed.

Lemma prefix_app_false n h r :
  String.prefix n h = false -> String.length n <= String.length h ->
  String.prefix n (h +:+ r) = false.
Proof.
  revert h. induction n as [|c n IH]; intros h H Hl.
  - by destruct h.
  - destruct h as [|c' h]; [simpl in Hl; lia|].
    rewrite app_cons. simpl in *. destruct (ascii_dec c c'); [|done].
    apply IH; [done | lia].
Qed.

(** An occurrence inside [h] is found at the same index in [h +:+ r]. *)
Lemma indexOf_app_found n h r :
  (0 <= indexOf n h)%Z -> indexOf n (h +:+ r) = indexOf n h.
Proof.
  induction h as [|c h IH].
  - cbn [indexOf]. destruct (String.prefix n "") eqn:E; [|lia]. intros _.
    rewrite app_empty_l. destruct n; [|done].
    destruct r; cbn [indexOf]; done.
  - cbn [indexOf]. rewrite app_cons. cbn [indexOf]. rewrite <- app_cons.
    destruct (String.prefix n (String c h)) eqn:E.
    + by rewrite (prefix_app_true _ _ r E).
    + destruct (indexOf n h <? 0)%Z eqn:Ei; [lia|]. intros _.
      pose proof Ei as Hi. apply Z.ltb_ge in Hi.
      rewrite prefix_app_false; [by rewrite (IH Hi), Ei|exact E|].
      destruct (indexOf_sound n h Hi) as (pre & post & -> & _).
      simpl. rewrite !app_length'. lia.
Qed.

(** In a log that starts with the header, the entry goes right after it. *)
Lemma insertEntry_header rest entry :
  insertEntry (logHeader +:+ rest) entry = logHeader +:+ entry +:+ rest.
Proof.
  unfold insertEntry, indexOf_units.
  assert (indexOf separator logHeader = 73%Z) as Hi by (vm_compute; reflexivity).
  rewrite indexOf_app_found by (rewrite Hi; lia). rewrite Hi.
  set (fixed := "# Tweet Processing Log" +:+ nl +:+ nl
                +:+ "Automated processing log for tweet screenshots." +:+ nl +:+ nl).
  assert (logHeader = fixed +:+ separator) as Hh by reflexivity.
  assert (String.length fixed = 73) as Hl by reflexivity.
  assert (units fixed = 73) as Hu by (vm_compute; reflexivity).
  rewrite Hh, !app_assoc'. change (Z.to_nat 73) with 73. rewrite <- Hl at 1.
  rewrite slice_to_app, Hu. cbn [Z.ltb Z.compare].
  replace (Z.to_nat (Z.of_nat 73 + 5)) with (units fixed + 5) by (rewrite Hu; lia).
  rewrite slice_units_separator. by rewrite !app_assoc'.
Qed.

(** The header is a fixed text followed by the separator, which occurs
    in it nowhere else. *)
Lemma logHeader_separator :
  first_occurrence separator logHeader
    ("# Tweet Processing Log" +:+ nl +:+ nl
     +:+ "Automated processing log for tweet screenshots." +:+ nl +:+ nl) "".
Proof.
  split; [reflexivity|]. intros pre' post' E.
  pose proof (indexOf_bound separator pre' post') as [_ H].
  rewrite <- E in H.
  change (indexOf separator logHeader) with 73%Z in H.
  change (String.length _) with 73 at 1. lia.
Qed.

Lemma concat_empty_app l1 l2 :
  String.concat "" (l1 ++ l2) = String.concat "" l1 +:+ String.concat "" l2.
Proof.
  induction l1 as [|x l1 IH]; [done|].
  rewrite <- app_comm_cons, !concat_empty_cons, IH. by rewrite app_assoc'.
Qed.

Lemma logResult_step w cfg td ts shot p st :
  dryRun cfg = false -> tags td = Some ts -> log_writable cfg st ->
  logResult w cfg td shot p st
  = (Ok tt,
     mkState
       (mkFS (<[logPath cfg :=
                  insertEntry (current_log cfg st)
                    (logEntry w (isoTime w (ticks st)) td (join ", " ts) shot p)]>
                (files (fs st)))
             (dirs (fs st)) (denied (fs st)))
       (processedScreenshots st) (S (ticks st))).
Proof.
  intros Hdry Ht (Hden & Hdir & Hparent).
  unfold logResult, bind, now, existsSync, readFileSync, lift, tags_joined,
    writeFileSync, ret, current_log.
  fold (logPath cfg). cbn [fs files dirs denied processedScreenshots ticks].
  rewrite Hdry, Ht. cbn [negb].
  rewrite (bool_decide_false (logPath cfg ∈ dirs (fs st))) by done.
  destruct (files (fs st) !! logPath cfg) as [c|] eqn:E.
  - rewrite bool_decide_true by (by eexists). cbn. rewrite E. cbn.
    rewrite !bool_decide_false by done.
    by rewrite bool_decide_false by (by intros H; apply H).
  - rewrite bool_decide_false by (by intros [? ?]). cbn.
    rewrite !bool_decide_false by done.
    by rewrite bool_decide_false by (by intros H; apply H).
Qed.

Lemma logAll_from w cfg calls :
  dryRun cfg = false -> Forall tags_present calls ->
  forall st rest,
    log_writable cfg st ->
    current_log cfg st = logHeader +:+ rest ->
    exists st', logAll w cfg calls st = (Ok tt, st')
      /\ log_writable cfg st'
      /\ current_log cfg st'
         = logHeader +:+ String.concat "" (rev (entries_from w (ticks st) calls)) +:+ rest
      /\ (calls <> [] -> is_Some (files (fs st') !! logPath cfg)).
Proof.
  intros Hdry Hall. induction Hall as [|[[td shot] p] calls [ts Ht] _ IH]; intros st rest Hw Hc.
  - exists st. by rewrite app_empty_l.
  - cbn [logAll]. unfold bind at 1.
    rewrite (logResult_step w cfg td ts shot p st Hdry Ht Hw).
    set (st1 := mkState _ _ _).
    assert (log_writable cfg st1) as Hw1 by exact Hw.
    assert (current_log cfg st1
            = logHeader +:+ entryOf w (ticks st) (td, shot, p) +:+ rest) as Hc1.
    { unfold current_log, st1. cbn [fs files]. rewrite lookup_insert_eq. cbn.
      rewrite Hc, insertEntry_header. unfold entryOf. cbn in Ht. by rewrite Ht. }
    destruct (IH st1 _ Hw1 Hc1) as (st' & Hrun & Hw' & Hc' & Hex).
    exists st'. split; [exact Hrun|]. split; [exact Hw'|]. split.
    + rewrite Hc'. cbn [entries_from rev]. rewrite concat_empty_app.
      cbn [String.concat]. by rewrite !app_assoc'.
    + intros _. destruct calls as [|call calls']; [|by apply Hex].
      cbn in Hrun. injection Hrun as <-. unfold st1. cbn.
      rewrite lookup_insert_eq. by eexists.
Qed.

(** What does hold of the log.  In a live run, [logResult] creates a
    missing log as the fixed header, which ends with the separator,
    followed by the entry; in a log that has the separator the entry
    goes right after its first occurrence, before everything that
    followed it; so after any number of calls on a log that did not
    exist the document is the header, once, followed by the entries,
    the most recent first. *)
Theorem log_newest_first (w : World) (cfg : Config) :
  dryRun cfg = false ->
  (forall st td ts shot p,
     tags td = Some ts -> log_writable cfg st ->
     files (fs st) !! logPath cfg = None ->
     exists st', logResult w cfg td shot p st = (Ok tt, st')
       /\ files (fs st') !! logPath cfg
          = Some (logHeader
                  +:+ logEntry w (isoTime w (ticks st)) td (join ", " ts) shot p))
  /\ (exists fixed, first_occurrence separator logHeader fixed "")
  /\ (forall st td ts shot p logContent pre post,
        tags td = Some ts -> log_writable cfg st ->
        files (fs st) !! logPath cfg = Some logContent ->
        first_occurrence separator logContent pre post ->
        exists st', logResult w cfg td shot p st = (Ok tt, st')
          /\ files (fs st') !! logPath cfg
             = Some (pre +:+ separator
                     +:+ logEntry w (isoTime w (ticks st)) td (join ", " ts) shot p
                     +:+ post))
  /\ (forall st calls,
        calls <> [] -> Forall tags_present calls -> log_writable cfg st ->
        files (fs st) !! logPath cfg = None ->
        exists st', logAll w cfg calls st = (Ok tt, st')
          /\ files (fs st') !! logPath cfg
             = Some (logHeader
                     +:+ String.concat "" (rev (entries_from w (ticks st) calls)))).
Proof.
  intros Hdry. split; [|split; [|split]].
  - intros st td ts shot p Ht Hw Hnone. eexists. split.
    + by apply logResult_step.
    + cbn. rewrite lookup_insert_eq. unfold current_log. rewrite Hnone. cbn.
      rewrite <- (app_empty_r logHeader) at 1.
      by rewrite insertEntry_header, app_empty_r.
  - eexists. apply logHeader_separator.
  - intros st td ts shot p c pre post Ht Hw Hc Hf. eexists. split.
    + by apply logResult_step.
    + cbn. rewrite lookup_insert_eq. unfold current_log. rewrite Hc. cbn.
      by rewrite (insertEntry_first _ _ _ _ Hf).
  - intros st calls Hne Hall Hw Hnone.
    destruct (logAll_from w cfg calls Hdry Hall st "" Hw) as (st' & Hrun & _ & Hc & Hex).
    { unfold current_log. rewrite Hnone. cbn. by rewrite app_empty_r. }
    exists st'. split; [exact Hrun|].
    destruct (Hex Hne) as [c Hsome]. unfold current_log in Hc. rewrite Hsome in *.
    cbn in Hc. by rewrite Hc, app_empty_r.
Qed.

Lemma log_newest_first_witness :
  dryRun (cfg_sample false) = false
  /\ exists st',
       logAll (world_sample td_sample) (cfg_sample false) calls_sample st_sample
       = (Ok tt, st')
       /\ files (fs st') !! logPath (cfg_sample false)
          = Some (logHeader
                  +:+ String.concat ""
                        (rev (entries_from (world_sample td_sample) 0 calls_sample))).
Proof.
  split; [reflexivity|].
  destruct (log_newest_first (world_sample td_sample) (cfg_sample false) eq_refl)
    as (_ & _ & _ & H).
  apply (H st_sample calls_sample).
  - discriminate.
  - repeat constructor; by eexists.
  - repeat split; apply (bool_decide_unpack _); vm_compute; exact I.
  - vm_compute. reflexivity.
Defined.

(** A log that exists without the separator is outside these cases:
    [indexOf] gives -1 and the entry goes in at index 4, counted in
    code units. *)
Example log_without_separator :
  insertEntry "My own notes" "<entry>" = "My o<entry>wn notes"
  /\ insertEntry "héllo" "<entry>" = "héll<entry>o".
Proof. split; reflexivity. Qed.

(** C6, at the failing input.  The log exists and holds text without
    the separator: [indexOf] gives -1, [headerEnd] is 4, and the entry
    is written behind the fourth character, inside the first line of
    the user's text, or at the end of a text of four characters; on a
    log that was emptied the file becomes the entry alone, without the
    header, and the next entry lands inside the first one. *)
Theorem log_entry_misplaced :
  let w := world_sample td_sample in
  let cfg := cfg_sample false in
  let first := (td_sample, shot_sample, "/vault/03 - Resources/X Insights/first.md") in
  let second := (td_sample, shot_sample, "/vault/03 - Resources/X Insights/second.md") in
  let log_after content calls :=
    files (fs (logAll w cfg calls (with_file (logPath cfg) content st_sample)).2)
      !! logPath cfg in
  indexOf_units separator "My own notes" = (-1)%Z
  /\ log_after "My own notes" [first]
     = Some ("My o" +:+ entryOf w 0 first +:+ "wn notes")
  /\ log_after "TODO" [first] = Some ("TODO" +:+ entryOf w 0 first)
  /\ log_after "" [first] = Some (entryOf w 0 first)
  /\ log_after "" [first; second]
     = Some ("## 2" +:+ entryOf w 1 second +:+ slice_from 4 (entryOf w 0 first)).
Proof. repeat split; vm_compute; reflexivity. Qed.

End Log.

(** * Further properties of the script *)

(** ** The sanitised file name *)

Section FileNameShape.

Lemma replace_runs_safe b s : all_safe (replace_runs_from b s) = true.
Proof.
  revert b. induction s as [|c r IH]; intros b; simpl; [done|].
  destruct (is_az09 c) eqn:E; simpl.
  - by rewrite E, IH.
  - destruct b; [apply IH|]. simpl. by rewrite IH.
Qed.

Lemma strip_leading_safe s : all_safe s = true -> all_safe (strip_leading_hyphen s) = true.
Proof.
  destruct s as [|c r]; [done|]. intros H.
  pose proof H as H'. cbn [all_safe] in H'. apply andb_prop in H' as [_ H2].
  cbn [strip_leading_hyphen]. by destruct (is_hyphen c).
Qed.

Lemma strip_trailing_safe s : all_safe s = true -> all_safe (strip_trailing_hyphen s) = true.
Proof.
  induction s as [|c r IH]; [done|].
  destruct r as [|c2 r2].
  - simpl. intros H. destruct (is_hyphen c) eqn:E; [done|]. simpl. by rewrite E.
  - intros H. change (all_safe (String c (String c2 r2)))
      with ((is_az09 c || is_hyphen c) && all_safe (String c2 r2)) in H.
    apply andb_prop in H as [H1 H2].
    change (strip_trailing_hyphen (String c (String c2 r2)))
      with (String c (strip_trailing_hyphen (String c2 r2))).
    cbn [all_safe]. by rewrite H1, (IH H2).
Qed.

Lemma strip_trailing_single s :
  single_hyphens s = true -> single_hyphens (strip_trailing_hyphen s) = true.
Proof.
  induction s as [|c r IH]; [done|].
  destruct r as [|c2 r2].
  - simpl. intros _. destruct (is_hyphen c) eqn:E; simpl; rewrite ?E; done.
  - intros H. change (single_hyphens (String c (String c2 r2)))
      with (negb (is_hyphen c && is_hyphen c2) && single_hyphens (String c2 r2)) in H.
    apply andb_prop in H as [H1 H2]. specialize (IH H2).
    change (strip_trailing_hyphen (String c (String c2 r2)))
      with (String c (strip_trailing_hyphen (String c2 r2))).
    cbn [single_hyphens]. rewrite IH, andb_true_r.
    destruct (is_hyphen c) eqn:Ec; [|done].
    destruct r2 as [|c3 r3].
    + simpl in *. destruct (is_hyphen c2) eqn:E2; simpl; rewrite ?E2; done.
    + change (strip_trailing_hyphen (String c2 (String c3 r3)))
        with (String c2 (strip_trailing_hyphen (String c3 r3))).
      simpl in *. by destruct (is_hyphen c2).
Qed.

Lemma substring_0_safe n s : all_safe s = true -> all_safe (substring_0 n s) = true.
Proof.
  unfold substring_0. revert n. induction s as [|c r IH]; intros [|n]; simpl; try done.
  intros [H1 H2]%andb_prop. by rewrite H1, (IH n H2).
Qed.

Lemma substring_0_single n s :
  single_hyphens s = true -> single_hyphens (substring_0 n s) = true.
Proof.
  unfold substring_0. revert n. induction s as [|c r IH]; intros [|n]; simpl; try done.
  intros [H1 H2]%andb_prop. rewrite (IH n H2), andb_true_r.
  destruct (is_hyphen c); [|done]. simpl in *.
  destruct r as [|c2 r2], n as [|n]; simpl in *; done.
Qed.

Lemma substring_0_length n s : String.length (substring_0 n s) <= n.
Proof.
  unfold substring_0. revert n. induction s as [|c r IH]; intros [|n]; simpl; try lia.
  specialize (IH n). lia.
Qed.

(** X1.  The sanitised base of a note's file name has at most 50
    characters, all of them lower-case letters, digits or hyphens, and
    never two hyphens in a row. *)
Theorem sanitize_shape (title : string) :
  String.length (sanitize title) <= 50
  /\ all_safe (sanitize title) = true
  /\ single_hyphens (sanitize title) = true.
Proof.
  unfold sanitize, replace_nonalnum_runs, replace_edge_hyphens.
  split; [apply substring_0_length|]. split.
  - apply substring_0_safe, strip_trailing_safe, strip_leading_safe, replace_runs_safe.
  - apply substring_0_single, strip_trailing_single.
    apply strip_leading_single, replace_runs_single.
Qed.

End FileNameShape.

(** ** Paths *)

Section Paths.

Lemma prefix_cons a s1 b s2 :
  String.prefix (String a s1) (String b s2)
  = if ascii_dec a b then String.prefix s1 s2 else false.
Proof. reflexivity. Qed.

Lemma no_slash_indexOf s : no_slash s = true -> indexOf "/" s = (-1)%Z.
Proof.
  induction s as [|c r IH]; [done|]. cbn [no_slash]. intros [Hc Hr]%andb_prop.
  cbn [indexOf]. rewrite prefix_cons, (IH Hr).
  destruct (ascii_dec "/" c) as [<-|]; [done|]. done.
Qed.

Lemma dirname_path_join a b : no_slash b = true -> dirname (path_join a b) = a.
Proof.
  intros Hb. unfold path_join. induction a as [|c a IH].
  - rewrite app_empty_l. change ("/" +:+ b) with (String "/" b). cbn [dirname].
    rewrite (no_slash_indexOf _ Hb). done.
  - rewrite app_cons. cbn [dirname]. rewrite IH.
    rewrite bool_decide_true; [done|]. apply indexOf_bound.
Qed.

Lemma safe_no_slash s : all_safe s = true -> no_slash s = true.
Proof.
  induction s as [|c r IH]; [done|]. simpl. intros [Hc Hr]%andb_prop.
  rewrite (IH Hr), andb_true_r.
  destruct c as [[] [] [] [] [] [] [] []]; try reflexivity; discriminate Hc.
Qed.

Lemma no_slash_app a b : no_slash a = true -> no_slash b = true -> no_slash (a +:+ b) = true.
Proof.
  intros Ha Hb. induction a as [|c a IH]; [done|].
  rewrite app_cons. simpl in *. apply andb_prop in Ha as [H1 H2]. by rewrite H1, IH.
Qed.

Lemma noteFilename_no_slash t : no_slash (noteFilename t) = true.
Proof.
  unfold noteFilename. apply no_slash_app; [|done].
  unfold sanitize, replace_nonalnum_runs, replace_edge_hyphens.
  apply safe_no_slash, substring_0_safe, strip_trailing_safe, strip_leading_safe.
  apply replace_runs_safe.
Qed.

Lemma byte_is_eq n c : byte_is n c = true -> c = ascii_of_nat n.
Proof.
  unfold byte_is. intros H%Nat.eqb_eq. by rewrite <- (ascii_nat_embedding c), H.
Qed.

Lemma segments_nonempty p : Path.segments p <> [].
Proof.
  destruct p as [|c r]; [done|]. cbn [Path.segments].
  destruct (byte_is 47 c); [done|]. by destruct (Path.segments r).
Qed.

(** The segments of [a/b] are those of [a], then those of [b]. *)
Lemma segments_join a b :
  Path.segments (path_join a b) = Path.segments a ++ Path.segments b.
Proof.
  unfold path_join. induction a as [|c a IH].
  - rewrite app_empty_l. reflexivity.
  - rewrite app_cons. cbn [Path.segments]. rewrite IH.
    destruct (byte_is 47 c); [done|].
    pose proof (segments_nonempty a) as Hne.
    by destruct (Path.segments a).
Qed.

Lemma concat_cons_cons sep (x y : string) l :
  String.concat sep (x :: y :: l) = x +:+ sep +:+ String.concat sep (y :: l).
Proof. reflexivity. Qed.

(** A path is its segments with a slash between them. *)
Lemma concat_segments p : String.concat "/" (Path.segments p) = p.
Proof.
  induction p as [|c r IH]; [done|]. cbn [Path.segments].
  pose proof (segments_nonempty r) as Hne.
  destruct (byte_is 47 c) eqn:E.
  - apply byte_is_eq in E as ->.
    destruct (Path.segments r) as [|seg rest]; [done|].
    rewrite concat_cons_cons, IH. reflexivity.
  - destruct (Path.segments r) as [|seg [|seg2 rest]]; [done| |].
    + cbn in IH. by rewrite <- IH.
    + rewrite concat_cons_cons in *. by rewrite app_cons, IH.
Qed.

Lemma concat_slash_app l1 l2 :
  l1 <> [] -> l2 <> [] ->
  String.concat "/" (l1 ++ l2)
  = String.concat "/" l1 +:+ "/" +:+ String.concat "/" l2.
Proof.
  intros H1 H2. induction l1 as [|x [|y l1] IH]; [done| |].
  - destruct l2 as [|z l2]; [done|]. reflexivity.
  - rewrite <- !app_comm_cons, !concat_cons_cons.
    rewrite <- !app_comm_cons in IH. rewrite IH by done.
    by rewrite !app_assoc'.
Qed.

Lemma fold_keep_plain allow segs kept :
  forallb plain_segment segs = true ->
  fold_left (Path.keep allow) segs kept = rev segs ++ kept.
Proof.
  revert kept. induction segs as [|seg segs IH]; intros kept H; [done|].
  cbn [forallb] in H. apply andb_prop in H as [Hseg Hsegs].
  cbn [fold_left rev]. rewrite (IH _ Hsegs), <- app_assoc. cbn [app].
  f_equal. unfold Path.keep, plain_segment in *.
  apply negb_true_iff in Hseg.
  apply orb_false_elim in Hseg as [[H1 H2]%orb_false_elim H3].
  by rewrite H1, H2, H3.
Qed.

Lemma plain_segments_nonempty segs :
  segs <> [] -> forallb plain_segment segs = true -> String.concat "/" segs <> "".
Proof.
  destruct segs as [|seg [|seg2 rest]]; [done| |]; intros _;
    cbn [forallb]; intros [Hseg _]%andb_prop.
  - cbn. intros ->. done.
  - rewrite concat_cons_cons. destruct seg; [done|]. by rewrite app_cons.
Qed.

(** A path ends with a slash only when its last segment is empty. *)
Lemma trailing_segments p :
  last_byte p = Some "/"%char -> last (Path.segments p) = Some "".
Proof.
  induction p as [|c r IH]; [done|]. cbn [last_byte Path.segments].
  destruct r as [|c2 r2].
  - intros [= ->]. reflexivity.
  - intros H. specialize (IH H).
    pose proof (concat_segments (String c2 r2)) as Hc.
    destruct (byte_is 47 c).
    + destruct (Path.segments (String c2 r2)); [done|]. exact IH.
    + destruct (Path.segments (String c2 r2)) as [|seg [|seg2 rest]]; [done| |].
      * cbn in IH. injection IH as ->. done.
      * exact IH.
Qed.

Lemma plain_no_trailing b :
  plain_relative b = true -> Path.trailingSeparator (path_join "x" b) = false.
Proof.
  intros Hb. unfold Path.trailingSeparator. apply bool_decide_false. intros H.
  apply trailing_segments in H. rewrite segments_join in H.
  unfold plain_relative in Hb.
  pose proof (segments_nonempty b) as Hne.
  destruct (Path.segments b) as [|seg rest] using rev_ind; [done|].
  rewrite app_assoc, last_snoc in H. injection H as ->.
  rewrite forallb_app in Hb. apply andb_prop in Hb as [_ Hb]. done.
Qed.

Lemma last_byte_join_any a b : b <> "" -> last_byte (path_join a b) = last_byte b.
Proof.
  intros Hb. unfold path_join. rewrite last_byte_app; [|by destruct b].
  apply (last_byte_app "/" b Hb).
Qed.

(** On components that need no normalisation, [path.join] is
    [path_join]. *)
Lemma join_plain a b :
  plain_path a = true -> plain_relative b = true -> Path.join a b = path_join a b.
Proof.
  intros Ha Hb.
  assert (a <> "") as Hane by (intros ->; done).
  assert (b <> "") as Hbne by (intros ->; done).
  assert (path_join a b <> "") as Hne
    by (unfold path_join; destruct a; [done | by rewrite app_cons]).
  unfold Path.join.
  rewrite (bool_decide_false (a = "")), (bool_decide_false (b = "")) by done.
  fold (path_join a b). cbv zeta.
  rewrite (bool_decide_false (path_join a b = "")) by done.
  unfold Path.normalize. rewrite (bool_decide_false (path_join a b = "")) by done.
  assert (Path.trailingSeparator (path_join a b) = false) as ->.
  { pose proof (plain_no_trailing b Hb) as H. unfold Path.trailingSeparator in *.
    rewrite last_byte_join_any in * by done. exact H. }
  assert (Path.isAbsolute (path_join a b) = Path.isAbsolute a) as ->.
  { unfold path_join. destruct a; [done|]. by rewrite app_cons. }
  unfold Path.normalizeString. rewrite segments_join.
  pose proof (segments_nonempty b) as Hsb.
  pose proof (concat_segments a) as Hca. pose proof (concat_segments b) as Hcb.
  unfold plain_path in Ha. unfold plain_relative in Hb.
  destruct a as [|c a']; [done|]. cbn [Path.isAbsolute Path.segments] in *.
  destruct (byte_is 47 c) eqn:Ec.
  - apply andb_prop in Ha as [Hrest Ha]. apply negb_true_iff in Hrest.
    apply bool_decide_eq_false in Hrest. cbn [negb].
    rewrite <- app_comm_cons. cbn [fold_left].
    replace (Path.keep false [] "") with (@nil string) by reflexivity.
    rewrite fold_keep_plain by (by rewrite forallb_app, Ha, Hb).
    rewrite app_nil_r, rev_involutive.
    rewrite bool_decide_false
      by (apply plain_segments_nonempty;
          [by destruct (Path.segments a') | by rewrite forallb_app, Ha, Hb]).
    rewrite concat_slash_app, Hcb by done.
    rewrite app_empty_r.
    destruct (Path.segments a') as [|seg rest] eqn:Es; [done|].
    rewrite concat_cons_cons in Hca.
    unfold path_join. rewrite <- Hca. by rewrite !app_assoc'.
  - cbn [negb].
    assert (forallb plain_segment
              (match Path.segments a' with
               | seg :: rest => String c seg :: rest
               | [] => [String c ""]
               end) = true) as Hall
      by (destruct (Path.segments a'); exact Ha).
    rewrite fold_keep_plain by (by rewrite forallb_app, Hall, Hb).
    rewrite app_nil_r, rev_involutive.
    rewrite bool_decide_false
      by (apply plain_segments_nonempty;
          [by destruct (Path.segments a') | by rewrite forallb_app, Hall, Hb]).
    rewrite concat_slash_app by first [done | destruct (Path.segments a'); done].
    by rewrite Hca, Hcb, app_empty_l, app_empty_r.
Qed.

Lemma plain_path_join a b :
  plain_path a = true -> plain_relative b = true -> plain_path (path_join a b) = true.
Proof.
  intros Ha Hb. unfold plain_path, plain_relative in *. rewrite segments_join.
  pose proof (segments_nonempty b) as Hsb.
  pose proof (segments_nonempty a) as Hsa.
  destruct (Path.segments a) as [|seg rest]; [done|].
  rewrite <- app_comm_cons.
  destruct seg as [|c seg].
  - apply andb_prop in Ha as [_ Ha]. rewrite forallb_app, Ha, Hb.
    rewrite bool_decide_false; [done|]. by destruct rest.
  - cbn [forallb] in *. rewrite forallb_app.
    apply andb_prop in Ha as [-> ->]. by rewrite Hb.
Qed.

Lemma segments_no_slash f : no_slash f = true -> Path.segments f = [f].
Proof.
  induction f as [|c r IH]; [done|]. cbn [no_slash Path.segments].
  intros [Hc Hr]%andb_prop. apply negb_true_iff in Hc. by rewrite Hc, (IH Hr).
Qed.

Lemma indexOf_no_slash s : (indexOf "/" s < 0)%Z -> no_slash s = true.
Proof.
  induction s as [|c r IH]; [done|]. cbn [indexOf no_slash]. rewrite prefix_cons.
  destruct (ascii_dec "/" c) as [<-|Hne].
  - destruct r; cbn; lia.
  - destruct (indexOf "/" r <? 0)%Z eqn:E; [|apply Z.ltb_ge in E; lia].
    intros _. apply Z.ltb_lt in E. rewrite (IH E), andb_true_r.
    apply negb_true_iff. destruct (byte_is 47 c) eqn:Ec; [|done].
    apply byte_is_eq in Ec. by destruct Hne.
Qed.

(** A name without a slash that is not empty, [.] or [..] is a plain
    relative path. *)
Lemma plain_name f :
  no_slash f = true -> f <> "" -> f <> "." -> f <> ".." -> plain_relative f = true.
Proof.
  intros Hs H1 H2 H3. unfold plain_relative. rewrite (segments_no_slash _ Hs).
  cbn [forallb]. unfold plain_segment. by rewrite !bool_decide_false.
Qed.

Lemma noteFilename_plain t : plain_relative (noteFilename t) = true.
Proof.
  assert (3 <= String.length (noteFilename t)) as Hlen
    by (unfold noteFilename; rewrite app_length'; simpl; lia).
  apply plain_name; [apply noteFilename_no_slash| | |]; intros E; rewrite E in Hlen;
    simpl in Hlen; lia.
Qed.

Lemma targetDir_plain cfg td : plain_relative (targetDir cfg td) = true.
Proof. unfold targetDir. by repeat case_match. Qed.

End Paths.

(** ** The scanner *)

Section Scanner.

Lemma lower_ascii_all_length s : String.length (lower_ascii_all s) = String.length s.
Proof. induction s as [|c r IH]; simpl; [done | by rewrite IH]. Qed.

Lemma lower_ascii_idem c : lower_ascii (lower_ascii c) = lower_ascii c.
Proof. destruct c as [[] [] [] [] [] [] [] []]; reflexivity. Qed.

Lemma lower_ascii_all_idem s : lower_ascii_all (lower_ascii_all s) = lower_ascii_all s.
Proof. induction s as [|c r IH]; simpl; [done | by rewrite lower_ascii_idem, IH]. Qed.

Lemma lower_ascii_all_substring a n s :
  lower_ascii_all (String.substring a n s) = String.substring a n (lower_ascii_all s).
Proof.
  revert a n. induction s as [|c r IH]; intros [|a] [|n]; simpl; by rewrite ?IH.
Qed.

Lemma ends_with_ci_lower suffix f :
  ends_with_ci suffix (lower_ascii_all f) = ends_with_ci suffix f.
Proof.
  unfold ends_with_ci. rewrite lower_ascii_all_length.
  by rewrite <- lower_ascii_all_substring, lower_ascii_all_idem.
Qed.

Lemma is_image_lower f : is_image (lower_ascii_all f) = is_image f.
Proof. unfold is_image. by rewrite !ends_with_ci_lower. Qed.

(** X2.  The image test ignores the case of ASCII letters: two names
    that differ only in case are both images or both not, so [A.PNG] and
    [a.png] are treated alike. *)
Theorem is_image_ignores_case (f g : string) :
  lower_ascii_all f = lower_ascii_all g -> is_image f = is_image g.
Proof. intros H. by rewrite <- (is_image_lower f), <- (is_image_lower g), H. Qed.

Lemma is_image_ignores_case_witness :
  lower_ascii_all "Shot.PnG" = lower_ascii_all "shot.png"
  /\ is_image "Shot.PnG" = is_image "shot.png".
Proof.
  split; [reflexivity|].
  apply (is_image_ignores_case "Shot.PnG" "shot.png"). reflexivity.
Defined.

Lemma existsSync_run p st :
  existsSync p st
  = (Ok (bool_decide (is_Some (files (fs st) !! p)) || bool_decide (p ∈ dirs (fs st))), st).
Proof. reflexivity. Qed.

Lemma readdirSync_inv d st entries st' :
  readdirSync d st = (Ok entries, st') -> st' = st /\ d ∈ dirs (fs st).
Proof.
  unfold readdirSync. case_bool_decide; [|done]. by intros [= _ <-].
Qed.

Lemma findNewScreenshots_listing cfg st entries st' :
  readdirSync (path_join (vaultPath cfg) screenshotsDir) st = (Ok entries, st') ->
  findNewScreenshots cfg st
  = (Ok (map (screenshot_of cfg)
            (filter (fun f => is_new_image (processedScreenshots st) f = true) entries)),
     st).
Proof.
  intros Hr. destruct (readdirSync_inv _ _ _ _ Hr) as [-> Hd].
  unfold findNewScreenshots, bind. rewrite existsSync_run.
  rewrite (bool_decide_true (_ ∈ dirs (fs st))) by done.
  rewrite orb_true_r. cbn [negb]. rewrite Hr. reflexivity.
Qed.

(** What a listing holds are names: not empty, without a slash. *)
Lemma readdirSync_entries d st entries st' :
  readdirSync d st = (Ok entries, st') ->
  forall f, f ∈ entries -> f <> "" /\ no_slash f = true.
Proof.
  unfold readdirSync. case_bool_decide; [|done]. intros [= <- _] f Hf.
  apply list_elem_of_omap in Hf as (k & _ & Hk). unfold entry_name in Hk.
  destruct (String.prefix _ k); [|done].
  destruct (bool_decide _ || bool_decide _) eqn:E; [done|].
  injection Hk as <-. apply orb_false_elim in E as [E1 E2].
  apply bool_decide_eq_false in E1, E2.
  split; [exact E1|]. apply indexOf_no_slash. lia.
Qed.

Lemma image_name_plain f :
  f <> "" -> no_slash f = true -> is_image f = true -> plain_relative f = true.
Proof.
  intros Hne Hs Hi. apply plain_name; [done | done | |]; intros ->; discriminate Hi.
Qed.

(** X3.  For a vault path that needs no normalisation: when the
    screenshots folder exists, the scanner offers exactly its entries
    that are images without a truthy entry in the processed set, in the
    order of the listing; each item carries the paths that [path.join]
    gives, the folder joined with the name, under the vault and
    relative to it; scanning changes nothing. *)
Theorem scan_offers_exactly (cfg : Config) (st : State) (entries : list string)
    (st' : State) :
  plain_path (vaultPath cfg) = true ->
  readdirSync (Path.join (vaultPath cfg) screenshotsDir) st = (Ok entries, st') ->
  exists shots,
    findNewScreenshots cfg st = (Ok shots, st)
    /\ map filename shots
       = filter (fun f => is_new_image (processedScreenshots st) f = true) entries
    /\ (forall f, f ∈ map filename shots <->
          f ∈ entries /\ is_image f = true
          /\ falsy_at (processedScreenshots st) f = true)
    /\ (forall s, s ∈ shots ->
          fullPath s
          = Path.join (Path.join (vaultPath cfg) screenshotsDir) (filename s)
          /\ relativePath s = Path.join screenshotsDir (filename s)).
Proof.
  intros Hplain.
  assert (plain_relative screenshotsDir = true) as Hrel by (vm_compute; reflexivity).
  assert (plain_path screenshotsDir = true) as Hdir by (vm_compute; reflexivity).
  rewrite (join_plain (vaultPath cfg) screenshotsDir Hplain Hrel).
  intros Hr. eexists. split; [exact (findNewScreenshots_listing _ _ _ _ Hr)|].
  assert (forall l : list string, map filename (map (screenshot_of cfg) l) = l) as Hmap.
  { intros l. induction l as [|x l IH]; [done|]. simpl. by rewrite IH. }
  split; [apply Hmap|]. split.
  - intros f. rewrite Hmap, list_elem_of_filter. unfold is_new_image.
    rewrite andb_true_iff. tauto.
  - intros s Hs. apply list_elem_of_fmap in Hs as (f & -> & Hf).
    apply list_elem_of_filter in Hf as [Hnew Hin].
    apply andb_prop in Hnew as [Himg _].
    destruct (readdirSync_entries _ _ _ _ Hr f Hin) as [Hne Hslash].
    pose proof (image_name_plain f Hne Hslash Himg) as Hname.
    cbn [screenshot_of fullPath relativePath filename].
    rewrite (join_plain _ f (plain_path_join _ _ Hplain Hrel) Hname).
    by rewrite (join_plain screenshotsDir f Hdir Hname).
Qed.

Lemma scan_offers_exactly_witness :
  exists shots,
    findNewScreenshots (cfg_sample false) st_sample = (Ok shots, st_sample)
    /\ forall f, f ∈ map filename shots <->
         f ∈ (match (readdirSync "/vault/Attachments/Xeets" st_sample).1 with
              | Ok l => l | Throw _ => [] end)
         /\ is_image f = true
         /\ falsy_at (processedScreenshots st_sample) f = true.
Proof.
  destruct (scan_offers_exactly (cfg_sample false) st_sample
              (match (readdirSync "/vault/Attachments/Xeets" st_sample).1 with
               | Ok l => l | Throw _ => [] end) st_sample)
    as (shots & H1 & _ & H3 & _).
  - vm_compute. reflexivity.
  - vm_compute. reflexivity.
  - exists shots. split; [exact H1 | exact H3].
Defined.

(** Creating a directory that is not there and can be created adds it
    and the directories above it. *)
Lemma mkdirSync_run p st :
  p ∉ dirs (fs st) -> dir_available p st ->
  mkdirSync p st = (Ok tt, with_dirs (p :: ancestors p) st).
Proof.
  intros Hd [Hin | (Hf & Hden & Hall)]; [done|].
  rewrite Forall_forall in Hall.
  unfold mkdirSync. rewrite (bool_decide_false (p ∈ dirs (fs st))) by done.
  rewrite (bool_decide_false (Exists _ _)).
  2:{ intros (a & Ha & [x Hx])%Exists_exists. destruct (Hall a Ha) as [Hfa _].
      by rewrite Hfa in Hx. }
  rewrite (bool_decide_false (is_Some _)) by (rewrite Hf; by intros [? ?]).
  rewrite (bool_decide_false (p ∈ denied (fs st))) by done.
  rewrite (bool_decide_false (Exists _ _)).
  2:{ intros (a & Ha & [H1 H2])%Exists_exists. destruct (Hall a Ha) as [_ [H|H]]; done. }
  reflexivity.
Qed.

(** X4.  For a vault path that needs no normalisation: when the
    screenshots folder, the one that [path.join] names, does not exist
    and can be created, the scanner creates it together with the
    missing folders above it, offers nothing and touches nothing else,
    and [main] returns at once without a summary. *)
Theorem scan_bootstraps_missing_folder (w : World) (cfg : Config) (st : State) :
  let p := Path.join (vaultPath cfg) screenshotsDir in
  plain_path (vaultPath cfg) = true ->
  p ∉ dirs (fs st) -> dir_available p st ->
  let st' := with_dirs (p :: ancestors p) st in
  findNewScreenshots cfg st = (Ok [], st')
  /\ main w cfg st = (Ok None, st').
Proof.
  intros p Hplain.
  assert (p = path_join (vaultPath cfg) screenshotsDir) as Hp
    by (apply join_plain; [exact Hplain | vm_compute; reflexivity]).
  intros Hd Hav st'.
  assert (files (fs st) !! p = None) as Hf by (by destruct Hav as [? | (? & _)]).
  assert (findNewScreenshots cfg st = (Ok [], st')) as H.
  { unfold findNewScreenshots, bind. rewrite existsSync_run, <- Hp.
    rewrite bool_decide_false by (rewrite Hf; by intros [? ?]).
    rewrite bool_decide_false by done. cbn [orb negb].
    by rewrite (mkdirSync_run p st Hd Hav). }
  split; [exact H|]. unfold main, bind. by rewrite H.
Qed.

Lemma scan_bootstraps_missing_folder_witness :
  (main (world_sample td_sample) (cfg_sample false) (mkState (mkFS ∅ ∅ ∅) ∅ 0)).1
  = Ok None.
Proof.
  refine (f_equal fst (proj2 (scan_bootstraps_missing_folder
            (world_sample td_sample) (cfg_sample false)
            (mkState (mkFS ∅ ∅ ∅) ∅ 0) _ _ _))).
  - vm_compute. reflexivity.
  - apply not_elem_of_empty.
  - right. split; [apply lookup_empty|]. split; [apply not_elem_of_empty|].
    apply Forall_forall. intros a _.
    split; [apply lookup_empty | right; apply not_elem_of_empty].
Defined.

(** X5.  A run over a folder where every image already has a marker
    returns at once without a summary and leaves the file system, the
    processed set and the clock as they were. *)
Theorem nothing_new_changes_nothing (w : World) (cfg : Config) (st : State)
    (entries : list string) (st' : State) :
  readdirSync (path_join (vaultPath cfg) screenshotsDir) st = (Ok entries, st') ->
  (forall f, f ∈ entries -> is_image f = true -> has_marker f st) ->
  main w cfg st = (Ok None, st).
Proof.
  intros Hr Hall. unfold main, bind.
  rewrite (findNewScreenshots_listing _ _ _ _ Hr).
  destruct (filter _ entries) as [|f rest] eqn:E; [done|]. exfalso.
  assert (f ∈ filter (fun f => is_new_image (processedScreenshots st) f = true) entries)
    as Hf by (rewrite E; left).
  apply list_elem_of_filter in Hf as [Hnew Hin].
  apply andb_prop in Hnew as [Himg Hfalsy].
  destruct (Hall f Hin Himg) as [fields Hm].
  unfold falsy_at in Hfalsy. rewrite Hm in Hfalsy. discriminate.
Qed.

Lemma nothing_new_changes_nothing_witness :
  let st := mkState fs_sample
              {[ "seen.png" := marker "t0" "gemini"; "one.png" := marker "t1" "gemini";
                 "two.jpg" := marker "t2" "gemini" ]} 7 in
  main (world_sample td_sample) (cfg_sample false) st = (Ok None, st).
Proof.
  intros st.
  apply (nothing_new_changes_nothing (world_sample td_sample) (cfg_sample false) st
           (match (readdirSync "/vault/Attachments/Xeets" st).1 with
            | Ok l => l | Throw _ => [] end) st).
  - vm_compute. reflexivity.
  - intros f Hin Himg. vm_compute in Hin.
    repeat (apply elem_of_cons in Hin as [-> | Hin];
            [first [ discriminate Himg | eexists; vm_compute; reflexivity ] |]).
    by apply elem_of_nil in Hin.
Defined.

End Scanner.

(** ** Ranking the search results *)

Section Ranking.

Lemma insert_desc_perm x l : insert_desc x l ≡ₚ x :: l.
Proof.
  induction l as [|y l IH]; [done|]. simpl.
  destruct (Qle_bool (rel_of y) (rel_of x)); [done|].
  rewrite IH. apply Permutation_swap.
Qed.

Lemma sort_desc_perm l : sort_desc l ≡ₚ l.
Proof.
  induction l as [|x l IH]; [done|].
  unfold sort_desc in *. simpl. by rewrite insert_desc_perm, IH.
Qed.

Lemma insert_desc_sorted x l : sorted_desc l -> sorted_desc (insert_desc x l).
Proof.
  induction l as [|y l IH]; simpl; [by split|].
  intros [Hy Hl]. destruct (Qle_bool (rel_of y) (rel_of x)) eqn:E.
  - apply Qle_bool_iff in E. simpl. repeat split; [|done|done].
    constructor; [done|].
    eapply Forall_impl; [exact Hy|]. intros z Hz. simpl in Hz.
    by apply (Qle_trans _ (rel_of y)).
  - simpl. split; [|by apply IH].
    rewrite insert_desc_perm. constructor; [|done].
    destruct (Qlt_le_dec (rel_of x) (rel_of y)) as [Hlt|Hle].
    + by apply Qlt_le_weak.
    + apply Qle_bool_iff in Hle. congruence.
Qed.

Lemma sort_desc_sorted l : sorted_desc (sort_desc l).
Proof.
  induction l as [|x l IH]; [done|]. unfold sort_desc in *. simpl.
  by apply insert_desc_sorted.
Qed.

Lemma insert_desc_with_relevance q x l :
  with_relevance q (insert_desc x l) = with_relevance q (x :: l).
Proof.
  unfold with_relevance. induction l as [|y l IH]; [done|]. simpl.
  destruct (Qle_bool (rel_of y) (rel_of x)) eqn:E; [done|].
  rewrite (filter_cons _ y), IH, !(filter_cons _ x), (filter_cons _ y).
  destruct (decide (Qeq_bool (rel_of x) q = true)) as [Hx|Hx]; [|done].
  destruct (decide (Qeq_bool (rel_of y) q = true)) as [Hy|Hy]; [|done].
  exfalso. apply Qeq_bool_iff in Hx, Hy.
  assert (Qle_bool (rel_of y) (rel_of x) = true); [|congruence].
  apply Qle_bool_iff. rewrite Hx, Hy. apply Qle_refl.
Qed.

Lemma filterResearchResults_answer w cfg searchResults td ts entries :
  searchResults <> [] -> tags td = Some ts ->
  filter_reply w searchResults td = Ok (Some entries) ->
  filterResearchResults w cfg searchResults td
  = Ok (sort_desc (map (enrich searchResults) (passing cfg entries))).
Proof.
  intros Hne Ht Hr. unfold filterResearchResults, tags_joined, filter_try.
  by rewrite (length_zero_false _ Hne), Ht, Hr.
Qed.

(** X6.  When the relevance filter answers, [filterResearchResults]
    returns the answer's entries that reach the configured threshold,
    each once, ordered by falling relevance; an entry below the
    threshold is dropped even though the model returned it. *)
Theorem filtered_results_ranked (w : World) (cfg : Config)
    (searchResults : list RawResult) (td : TweetData) (ts : list string)
    (entries : list FilterEntry) :
  searchResults <> [] -> tags td = Some ts ->
  filter_reply w searchResults td = Ok (Some entries) ->
  exists out,
    filterResearchResults w cfg searchResults td = Ok out
    /\ out ≡ₚ map (enrich searchResults) (passing cfg entries)
    /\ sorted_desc out
    /\ (forall e, e ∈ out ->
          relevance_at_least (researchRelevanceThreshold cfg) (e_relevance e) = true)
    /\ length out <= length entries.
Proof.
  intros Hne Ht Hr. eexists. split; [by eapply filterResearchResults_answer|].
  split; [apply sort_desc_perm|]. split; [apply sort_desc_sorted|]. split.
  - intros e He. rewrite sort_desc_perm in He.
    apply list_elem_of_fmap in He as (r & -> & Hin).
    by apply list_elem_of_filter in Hin as [Hp _].
  - rewrite sort_desc_perm, length_map. apply length_filter.
Qed.

Lemma filtered_results_ranked_witness :
  exists out,
    filterResearchResults (world_filtering td_sample entries_sample) (cfg_sample false)
      raw_sample td_sample = Ok out
    /\ sorted_desc out /\ length out <= 3.
Proof.
  destruct (filtered_results_ranked (world_filtering td_sample entries_sample)
              (cfg_sample false) raw_sample td_sample ["ai"; "rag"] entries_sample)
    as (out & H1 & _ & H3 & _ & H5).
  - discriminate.
  - reflexivity.
  - reflexivity.
  - by exists out.
Defined.

(** X7.  The ranking is stable: results of equal relevance keep the
    order in which the model returned them. *)
Theorem ranking_is_stable (q : Q) (l : list Enriched) :
  with_relevance q (sort_desc l) = with_relevance q l.
Proof.
  induction l as [|x l IH]; [done|].
  change (sort_desc (x :: l)) with (insert_desc x (sort_desc l)).
  rewrite insert_desc_with_relevance. unfold with_relevance in *.
  by rewrite !(filter_cons _ x), IH.
Qed.

(** X8.  A filter entry is joined to the search result at its 1-based
    index; an entry whose index is outside the list survives all the
    same, without title, link or snippet, which the note then shows as
    [undefined]. *)
Theorem entry_index_lookup (searchResults : list RawResult) (r : FilterEntry) :
  (forall raw, (1 <= fe_index r)%Z ->
     searchResults !! Z.to_nat (fe_index r - 1) = Some raw ->
     e_title (enrich searchResults r) = Some (r_title raw)
     /\ e_url (enrich searchResults r) = Some (r_url raw)
     /\ e_snippet (enrich searchResults r) = Some (r_snippet raw))
  /\ ((fe_index r < 1)%Z \/ (Z.of_nat (length searchResults) < fe_index r)%Z ->
      e_title (enrich searchResults r) = None
      /\ e_url (enrich searchResults r) = None
      /\ e_snippet (enrich searchResults r) = None
      /\ show_opt (e_title (enrich searchResults r)) = "undefined"
      /\ show_opt (e_url (enrich searchResults r)) = "undefined")
  /\ e_relevance (enrich searchResults r) = fe_relevance r
  /\ e_reason (enrich searchResults r) = fe_reason r
  /\ e_summary (enrich searchResults r) = fe_summary r.
Proof.
  unfold enrich, result_at. split; [|split; [|done]].
  - intros raw Hi Hraw. apply Z.leb_le in Hi. rewrite Hi, Hraw. done.
  - intros Hout. assert ((if (1 <=? fe_index r)%Z
                          then searchResults !! Z.to_nat (fe_index r - 1)
                          else None) = None) as ->; [|done].
    destruct (1 <=? fe_index r)%Z eqn:E; [|done].
    apply Z.leb_le in E. apply lookup_ge_None. lia.
Qed.

(** X9.  With a relevance threshold of 0.6 or more, a result that
    passes the threshold is labelled High or Medium, never Low; the
    results of the degraded path, which get relevance 0.5, are all
    labelled Low. *)
Theorem relevance_labels (threshold : Q) (r : option Q) (raw : RawResult) :
  (Qle_bool double_0_6 threshold = true ->
   relevance_at_least threshold r = true ->
   relevanceLabel r = "High" \/ relevanceLabel r = "Medium")
  /\ relevanceLabel (e_relevance (unfiltered raw)) = "Low".
Proof.
  split; [|reflexivity].
  intros Ht Hr. unfold relevanceLabel.
  destruct (relevance_at_least double_0_8 r); [by left|].
  assert (relevance_at_least double_0_6 r = true) as ->; [|by right].
  destruct r as [q|]; [|done]. simpl in *.
  apply Qle_bool_iff in Ht, Hr. apply Qle_bool_iff.
  by apply (Qle_trans _ threshold).
Qed.

(** X10.  The research bundle is absent exactly when auto-research is
    switched off or the query generation or the web search throws; a
    failing relevance filter never makes it absent, and a bundle that is
    present carries the generated query. *)
Theorem research_absent_iff (w : World) (cfg : Config) (td : TweetData) :
  (performAutoResearch w cfg td = Ok None <->
     enableAutoResearch cfg = false
     \/ (exists e, generateSearchQuery w td = Throw e)
     \/ (exists q e, generateSearchQuery w td = Ok q /\ performWebSearch w q = Throw e))
  /\ (forall rd, performAutoResearch w cfg td = Ok (Some rd) ->
        generateSearchQuery w td = Ok (query rd))
  /\ (forall q, enableAutoResearch cfg = true -> generateSearchQuery w td = Ok q ->
        performWebSearch w q = Ok [] ->
        performAutoResearch w cfg td = Ok (Some (mkResearchData q []))).
Proof.
  unfold performAutoResearch.
  destruct (enableAutoResearch cfg) eqn:En; cbn [negb].
  2:{ split; [|split]; [split; [intros _; left; reflexivity | done]
                       | intros; congruence | intros; congruence]. }
  destruct (generateSearchQuery w td) as [q|e] eqn:Hq; cbn [rbind].
  2:{ split; [|split]; [|intros; congruence|intros; congruence].
      split; [intros _; right; left; by eexists | done]. }
  destruct (performWebSearch w q) as [sr|e] eqn:Hs; cbn [rbind].
  2:{ split; [|split]; [|intros; congruence|intros; congruence].
      split; [intros _; right; right; by eexists _, _ | done]. }
  assert (exists ts, tags td = Some ts) as [ts Ht].
  { unfold generateSearchQuery, tags_joined in Hq. destruct (tags td); [by eexists | done]. }
  destruct (length sr =? 0)%nat eqn:El.
  - split; [|split].
    + split; [intros; congruence|].
      intros [H | [[e H] | (q' & e & H1 & H2)]]; congruence.
    + by intros rd [= <-].
    + intros q' _ [= <-] _. done.
  - destruct (filterResearchResults_total w cfg sr td ts Ht) as [out Hout].
    rewrite Hout. cbn [rbind]. split; [|split].
    + split; [intros; congruence|].
      intros [H | [[e H] | (q' & e & H1 & H2)]]; congruence.
    + by intros rd [= <-].
    + intros q' _ [= <-] Hnil. rewrite Hs in Hnil. injection Hnil as ->. done.
Qed.

End Ranking.

(** ** Formatting and saving a note *)

Section NoteAndSave.

(** X11.  The note has an Auto-Research section exactly when a bundle
    is present and has at least one result; the section then opens with
    its heading. *)
Theorem research_section_iff (w : World) (researchData : option ResearchData) :
  (researchSection w researchData = ""
   <-> researchData = None \/ exists q, researchData = Some (mkResearchData q []))
  /\ (forall rd, researchData = Some rd -> results rd <> [] ->
        exists rest, researchSection w researchData
                     = nl +:+ "## Auto-Research" +:+ rest).
Proof.
  unfold researchSection. destruct researchData as [[q [|e l]]|]; simpl.
  - split; [|intros rd [= <-] H; by destruct H].
    split; [intros _; right; by exists q | done].
  - split.
    + split; [done|]. intros [H | [q' H]]; congruence.
    + intros rd _ _. by eexists.
  - split; [|intros rd H; discriminate H].
    split; [intros _; left; reflexivity | done].
Qed.

(** X12.  [generateNote] throws exactly when the record has no
    [engagement]; either way its only effect is one reading of the
    clock. *)
Theorem generateNote_outcome (w : World) (td : TweetData) (screenshotPath : string)
    (researchData : option ResearchData) (st : State) :
  (generateNote w td screenshotPath researchData st).2 = ticked st
  /\ ((generateNote w td screenshotPath researchData st).1 = Throw "TypeError"
      <-> engagement td = None)
  /\ (engagement td <> None ->
      exists note, (generateNote w td screenshotPath researchData st).1 = Ok note).
Proof.
  unfold generateNote, bind, now, ticked. cbn.
  destruct (engagement td) as [e|]; cbn.
  - split; [done|]. split; [split; congruence|]. intros _. by eexists.
  - split; [done|]. split; [done|]. congruence.
Qed.

Lemma ensure_dir_run d st :
  dir_available d st ->
  (do there <- existsSync d; (if negb there then mkdirSync d else ret tt)) st
  = (Ok tt, ensured_dir d st).
Proof.
  intros Hav. unfold bind, ensured_dir. rewrite existsSync_run.
  destruct (decide (d ∈ dirs (fs st))) as [Hd|Hd].
  - rewrite !(bool_decide_true (d ∈ dirs (fs st))) by done. by rewrite orb_true_r.
  - rewrite !(bool_decide_false (d ∈ dirs (fs st))) by done.
    assert (files (fs st) !! d = None) as Hf by (by destruct Hav as [? | (? & _)]).
    rewrite bool_decide_false by (rewrite Hf; by intros [? ?]).
    cbn [orb negb]. by rewrite (mkdirSync_run d st Hd Hav).
Qed.

Lemma ensured_dir_has d st : d ∈ dirs (fs (ensured_dir d st)).
Proof.
  unfold ensured_dir. case_bool_decide; [done|]. cbn.
  apply elem_of_union_l, elem_of_union_l, elem_of_singleton. reflexivity.
Qed.

(** The directories above a path are shorter than the path. *)
Lemma prefixes_shorter p a :
  a ∈ prefixes_before_slash p -> String.length a < String.length p.
Proof.
  revert a. induction p as [|c r IH]; intros a; cbn [prefixes_before_slash].
  - by intros ?%elem_of_nil.
  - intros [Ha | Ha]%elem_of_app.
    + destruct (byte_is 47 c); [|by apply elem_of_nil in Ha].
      apply list_elem_of_singleton in Ha as ->. simpl. lia.
    + apply list_elem_of_fmap in Ha as (a' & -> & Ha'). specialize (IH _ Ha').
      simpl. lia.
Qed.

Lemma ancestors_shorter p a : a ∈ ancestors p -> String.length a < String.length p.
Proof.
  unfold ancestors. intros [_ Ha]%list_elem_of_filter. by apply prefixes_shorter.
Qed.

Lemma saveNote_unfold cfg td note shot st :
  saveNote cfg td note shot st
  = (do_ (do there <- existsSync (noteDir cfg td);
          (if negb there then mkdirSync (noteDir cfg td) else ret tt));
     match title td with
     | None => throw "TypeError"
     | Some t =>
       if dryRun cfg then ret (mkSaveResult false None)
       else do_ writeFileSync (notePath cfg td t) note;
            ret (mkSaveResult true (Some (notePath cfg td t)))
     end) st.
Proof.
  unfold saveNote, bind, noteDir, notePath.
  by destruct (existsSync _ st) as [[there|] st1].
Qed.

(** X13.  For a vault path that needs no normalisation, a live
    [saveNote] whose folder is there or can be created and whose file
    may be written returns the path that [path.join] gives for vault,
    folder and file name, creates the folder, with the missing folders
    above it, if it was not there, and leaves the file holding the
    note, whatever the file held before: a note whose title sanitises
    to the name of an earlier one replaces it. *)
Theorem saveNote_live_effect (cfg : Config) (td : TweetData) (t note : string)
    (shot : Screenshot) (st : State) :
  let dir := Path.join (vaultPath cfg) (targetDir cfg td) in
  let file := Path.join dir (noteFilename t) in
  plain_path (vaultPath cfg) = true ->
  dryRun cfg = false -> title td = Some t ->
  dir_available dir st ->
  file ∉ denied (fs st) -> file ∉ dirs (fs st) ->
  saveNote cfg td note shot st
  = (Ok (mkSaveResult true (Some file)), with_file file note (ensured_dir dir st)).
Proof.
  intros dir file Hplain.
  assert (dir = noteDir cfg td) as ->
    by (apply join_plain; [exact Hplain | apply targetDir_plain]).
  assert (file = notePath cfg td t) as ->.
  { apply join_plain; [|apply noteFilename_plain].
    apply plain_path_join; [exact Hplain | apply targetDir_plain]. }
  intros Hdry Ht Hav Hden Hdir.
  assert (String.length (noteDir cfg td) < String.length (notePath cfg td t)) as Hlen.
  { unfold notePath, path_join. rewrite !app_length'. simpl. lia. }
  rewrite saveNote_unfold. unfold bind at 1. rewrite (ensure_dir_run _ _ Hav).
  rewrite Ht, Hdry. unfold bind, writeFileSync.
  assert (denied (fs (ensured_dir (noteDir cfg td) st)) = denied (fs st)) as Eden
    by (unfold ensured_dir; by case_bool_decide).
  rewrite bool_decide_false; [|by rewrite Eden].
  rewrite bool_decide_false.
  2:{ unfold ensured_dir. case_bool_decide; [done|]. cbn.
      intros [[H1%elem_of_singleton | H2%elem_of_list_to_set]%elem_of_union
             | H3]%elem_of_union; [| |done].
      - rewrite H1 in Hlen. lia.
      - apply ancestors_shorter in H2. lia. }
  rewrite bool_decide_false; [done|].
  intros H. apply H. unfold notePath at 1.
  rewrite dirname_path_join by apply noteFilename_no_slash.
  apply ensured_dir_has.
Qed.

Lemma saveNote_live_effect_witness :
  let td := td_sample in
  let file := "/vault/03 - Resources/X Insights/building-rag-systems-with-claude.md" in
  let st := with_file file "an earlier note" st_sample in
  saveNote (cfg_sample false) td "the new note" shot_sample st
  = (Ok (mkSaveResult true (Some file)),
     with_file file "the new note"
       (with_dirs ["/vault/03 - Resources/X Insights"; "/vault"; "/vault/03 - Resources"]
          st)).
Proof.
  intros td file st.
  refine (saveNote_live_effect (cfg_sample false) td "Building RAG Systems with Claude"
            "the new note" shot_sample st _ _ _ _ _ _).
  - vm_compute. reflexivity.
  - reflexivity.
  - reflexivity.
  - right. split; [vm_compute; reflexivity|].
    split; apply (bool_decide_unpack _); vm_compute; exact I.
  - apply (bool_decide_unpack _). vm_compute. exact I.
  - apply (bool_decide_unpack _). vm_compute. exact I.
Defined.

(** X14.  [saveNote] on a record without a title throws, in a live run
    and in a dry run alike, after it has created the destination
    folder, with the missing folders above it: they stay.  For a vault
    path that needs no normalisation the folder is the one that
    [path.join] names. *)
Theorem saveNote_without_title (cfg : Config) (td : TweetData) (note : string)
    (shot : Screenshot) (st : State) :
  let dir := Path.join (vaultPath cfg) (targetDir cfg td) in
  plain_path (vaultPath cfg) = true ->
  title td = None ->
  dir_available dir st ->
  saveNote cfg td note shot st = (Throw "TypeError", ensured_dir dir st).
Proof.
  intros dir Hplain.
  assert (dir = noteDir cfg td) as ->
    by (apply join_plain; [exact Hplain | apply targetDir_plain]).
  intros Ht Hav. rewrite saveNote_unfold. unfold bind at 1.
  rewrite (ensure_dir_run _ _ Hav), Ht. reflexivity.
Qed.

Lemma saveNote_without_title_witness :
  saveNote (cfg_sample true) td_untitled "note" shot_sample st_sample
  = (Throw "TypeError",
     with_dirs ["/vault/03 - Resources/X Insights"; "/vault"; "/vault/03 - Resources"]
       st_sample).
Proof.
  refine (saveNote_without_title (cfg_sample true) td_untitled "note" shot_sample
            st_sample _ _ _).
  - vm_compute. reflexivity.
  - reflexivity.
  - right. split; [vm_compute; reflexivity|].
    split; apply (bool_decide_unpack _); vm_compute; exact I.
Defined.

(** X15.  An item whose classification throws, or whose record lacks a
    numeric confidence or the tags, is counted as failed with nothing
    changed: no clock reading, no folder, no file, no marker. *)
Theorem malformed_item_fails_cleanly (w : World) (cfg : Config) (shot : Screenshot)
    (c : Counters) (st : State) :
  (exists e, vision_reply w (fullPath shot) = Throw e)
  \/ (exists td, vision_reply w (fullPath shot) = Ok td
                 /\ (confidence td = None \/ tags td = None)) ->
  processOne w cfg shot c st = (Ok (mkCounters (processed c) (S (failed c))), st).
Proof.
  intros H. unfold processOne, try_catch, bind at 1, tryBlock, bind at 1.
  unfold classifyAndSave, analyzeScreenshot, bind at 1, lift at 1.
  destruct H as [[e ->] | (td & -> & H)]; [done|].
  unfold bind at 1, lift at 1, confidence_shown.
  destruct (confidence td) as [q|] eqn:Ec; [|done].
  destruct H as [H | H]; [done|].
  unfold bind at 1, lift at 1, tags_joined. by rewrite H.
Qed.

Lemma malformed_item_fails_cleanly_witness :
  let td := mkTweetData "@dev" "Dev" None "text" false false None "resource"
              None (Some []) "s" (Some "T") "r" in
  processOne (world_sample td) (cfg_sample false) shot_sample (mkCounters 3 1) st_sample
  = (Ok (mkCounters 3 2), st_sample).
Proof.
  intros td.
  apply (malformed_item_fails_cleanly (world_sample td) (cfg_sample false) shot_sample
           (mkCounters 3 1) st_sample).
  right. exists td. split; [reflexivity | left; reflexivity].
Defined.

End NoteAndSave.

(** ** The processed set across runs *)

Section Persistence.

(** X16.  [markAsProcessed] puts a marker with the clock's time and the
    provider under the file name and leaves every other key alone.  In a
    dry run that is all; in a live run the whole set is then written to
    its file; and when that write is refused the call throws with the
    marker already in memory. *)
Theorem markAsProcessed_effect (w : World) (cfg : Config) (name : string) (st : State) :
  (dryRun cfg = true ->
   markAsProcessed w cfg name st
   = (Ok tt, mkState (fs st) (marked w cfg name st) (S (ticks st))))
  /\ (dryRun cfg = false -> store_writable cfg st ->
      markAsProcessed w cfg name st
      = (Ok tt,
         mkState (mkFS (<[processedFile cfg :=
                            JSON_stringify_store w (marked w cfg name st)]>
                          (files (fs st)))
                       (dirs (fs st)) (denied (fs st)))
                 (marked w cfg name st) (S (ticks st))))
  /\ (dryRun cfg = false -> processedFile cfg ∈ denied (fs st) ->
      markAsProcessed w cfg name st
      = (Throw "EACCES", mkState (fs st) (marked w cfg name st) (S (ticks st))))
  /\ (forall other, other <> name ->
        processedScreenshots (markAsProcessed w cfg name st).2 !! other
        = processedScreenshots st !! other).
Proof.
  unfold markAsProcessed, bind, now, set_processed, get_state, writeFileSync, ret, marked.
  cbn. split; [|split; [|split]].
  - by intros ->.
  - intros -> (Hden & Hdir & Hpar). cbn.
    rewrite !bool_decide_false by done.
    by rewrite bool_decide_false by (by intros H; apply H).
  - intros -> Hden. cbn. by rewrite bool_decide_true by done.
  - intros other Hne. destruct (dryRun cfg); cbn; repeat case_bool_decide; cbn;
      by rewrite lookup_insert_ne.
Qed.

Lemma loadProcessed_file w cfg f content :
  files f !! processedFile cfg = Some content ->
  loadProcessed w cfg f = JSON_parse_store w content.
Proof. unfold loadProcessed. by intros ->. Qed.

(** X17.  After a live [markAsProcessed] that returned, a process that
    starts on the resulting file system and reads the file back loads
    the set with the marker, and its scanner does not offer the item
    again. *)
Theorem marker_survives_restart (w : World) (cfg : Config) (name : string)
    (st st' : State) :
  dryRun cfg = false ->
  markAsProcessed w cfg name st = (Ok tt, st') ->
  JSON_parse_store w (JSON_stringify_store w (processedScreenshots st'))
  = Ok (processedScreenshots st') ->
  loadProcessed w cfg (fs st') = Ok (processedScreenshots st')
  /\ has_marker name (restarted (fs st') (processedScreenshots st'))
  /\ (forall shots st'',
        findNewScreenshots cfg (restarted (fs st') (processedScreenshots st'))
        = (Ok shots, st'') ->
        name ∉ map filename shots).
Proof.
  intros Hdry Hrun Hround.
  assert (has_marker name st') as Hm.
  { pose proof (markAsProcessed_marks w cfg name st) as H. by rewrite Hrun in H. }
  assert (files (fs st') !! processedFile cfg
          = Some (JSON_stringify_store w (processedScreenshots st'))) as Hfile.
  { unfold markAsProcessed, bind, now, set_processed, get_state, writeFileSync, ret in Hrun.
    rewrite Hdry in Hrun. cbn in Hrun.
    repeat case_bool_decide; try discriminate Hrun.
    injection Hrun as <-. cbn. apply lookup_insert_eq. }
  split; [by rewrite (loadProcessed_file _ _ _ _ Hfile)|].
  split; [exact Hm|].
  intros shots st'' Hscan Hin.
  apply list_elem_of_fmap in Hin as (s & -> & Hs).
  destruct (findNewScreenshots_offers _ _ _ _ Hscan s Hs) as [_ Hf].
  destruct Hm as [fields Hm]. unfold falsy_at in Hf. cbn in Hf.
  rewrite Hm in Hf. discriminate.
Qed.

Lemma marker_survives_restart_witness :
  let w := world_reading td_sample
             {[ "seen.png" := marker "2025-01-01T09:00:00.000Z" "gemini";
                "one.png" := marker "2025-01-01T10:00:00.000Z" "gemini" ]} in
  let st' := (markAsProcessed w (cfg_sample false) "one.png" st_sample).2 in
  loadProcessed w (cfg_sample false) (fs st') = Ok (processedScreenshots st').
Proof.
  intros w st'.
  refine (proj1 (marker_survives_restart w (cfg_sample false) "one.png" st_sample st'
                   _ _ _)).
  - reflexivity.
  - vm_compute. reflexivity.
  - vm_compute. reflexivity.
Defined.

#[local] Instance dirs_keep_off_preorder cfg : PreOrder (dirs_keep_off cfg).
Proof. split; unfold dirs_keep_off; [intros st; done | intros a b c; auto]. Qed.

(** The directories above [a/b]: those above [a], then [a], then those
    between [a] and [b]. *)
Lemma prefixes_join a b :
  prefixes_before_slash (path_join a b)
  = prefixes_before_slash a ++ a :: map (path_join a) (prefixes_before_slash b).
Proof.
  unfold path_join. induction a as [|c a IH].
  - rewrite app_empty_l. reflexivity.
  - rewrite app_cons. cbn [prefixes_before_slash]. rewrite IH.
    rewrite map_app, <- app_assoc. cbn [map]. rewrite map_map. reflexivity.
Qed.

Section KeepOff.

Context (cfg : Config) (Houtside : marker_outside_vault cfg).

(** No folder that the script creates, and no folder above one, is the
    file of the processed set. *)
Lemma created_not_processedFile lit below :
  lit <> "" -> last_byte lit <> Some "n"%char ->
  prefixes_before_slash lit = [below] ->
  below <> "" -> last_byte below <> Some "n"%char ->
  processedFile cfg <> path_join (vaultPath cfg) lit
  /\ (processedFile cfg ∉ ancestors (path_join (vaultPath cfg) lit)).
Proof.
  intros Hlit Hlast Hpre Hbelow Hblast. destruct Houtside as [Hv Ha]. split.
  - intros E. apply (f_equal last_byte) in E.
    rewrite last_byte_processedFile, last_byte_path_join in E by done. by destruct Hlast.
  - unfold ancestors in *. rewrite prefixes_join, Hpre. cbn [map].
    intros [Hne Hin]%list_elem_of_filter.
    apply elem_of_app in Hin as [Hin | Hin].
    + apply Ha. by apply list_elem_of_filter.
    + apply elem_of_cons in Hin as [Hin | Hin]; [done|].
      apply list_elem_of_singleton in Hin. apply (f_equal last_byte) in Hin.
      rewrite last_byte_processedFile, last_byte_path_join in Hin by done.
      by destruct Hblast.
Qed.

Lemma screenshots_off :
  processedFile cfg <> path_join (vaultPath cfg) screenshotsDir
  /\ (processedFile cfg ∉ ancestors (path_join (vaultPath cfg) screenshotsDir)).
Proof. by apply (created_not_processedFile _ "Attachments"). Qed.

Lemma target_off td :
  processedFile cfg <> path_join (vaultPath cfg) (targetDir cfg td)
  /\ (processedFile cfg ∉ ancestors (path_join (vaultPath cfg) (targetDir cfg td))).
Proof.
  unfold targetDir. repeat case_match.
  - by apply (created_not_processedFile _ "00 - Inbox").
  - by apply (created_not_processedFile _ "03 - Resources").
  - by apply (created_not_processedFile _ "01 - Projects").
Qed.

Lemma mkdirSync_keep_off p :
  processedFile cfg <> p /\ (processedFile cfg ∉ ancestors p) ->
  respects (dirs_keep_off cfg) (mkdirSync p).
Proof.
  intros [Hp Ha] st. unfold mkdirSync, dirs_keep_off.
  repeat case_bool_decide; cbn; try done.
  intros [[Hx%elem_of_singleton | Hx%elem_of_list_to_set]%elem_of_union
         | Hx]%elem_of_union; done.
Qed.

Ltac keep_off_tac :=
  repeat frame_step;
  try first
    [ apply mkdirSync_keep_off; first [apply screenshots_off | apply target_off]
    | frame_prim; unfold dirs_keep_off; cbn [fs dirs]; intros Hin; exact Hin ].

Lemma findNewScreenshots_keep_off :
  respects (dirs_keep_off cfg) (findNewScreenshots cfg).
Proof. unfold_pipeline. keep_off_tac. Qed.

Lemma tryBlock_keep_off w shot : respects (dirs_keep_off cfg) (tryBlock w cfg shot).
Proof. unfold_pipeline. keep_off_tac. Qed.

Lemma processAll_keep_off w shots c :
  respects (dirs_keep_off cfg) (processAll w cfg shots c).
Proof.
  revert c. induction shots as [|shot rest IH]; intros c; simpl.
  - keep_off_tac.
  - frame_step; [|apply IH].
    unfold processOne. frame_step; [|keep_off_tac].
    frame_step; [apply tryBlock_keep_off | keep_off_tac].
Qed.

Lemma main_keep_off w : respects (dirs_keep_off cfg) (main w cfg).
Proof.
  unfold main. frame_step; [apply findNewScreenshots_keep_off|].
  frame_step; [keep_off_tac|].
  frame_step; [apply processAll_keep_off | keep_off_tac].
Qed.

End KeepOff.

(** X18.  For a vault path and a script directory that need no
    normalisation: when the file of the processed set, the one that
    [path.join] names, is not the vault nor a directory above it, a dry
    run leaves no trace for the next process: what [loadProcessed]
    reads after the run is what it read before, whether the run returns
    or throws. *)
Theorem dry_run_not_persisted (w : World) (cfg : Config) (st : State)
    (r : result (option Counters)) (st' : State) :
  plain_path (vaultPath cfg) = true ->
  plain_path (scriptDir cfg) = true ->
  marker_outside_vault cfg ->
  dryRun cfg = true ->
  main w cfg st = (r, st') ->
  processedFile cfg = Path.join (scriptDir cfg) processedMarkerFile
  /\ loadProcessed w cfg (fs st') = loadProcessed w cfg (fs st).
Proof.
  intros _ Hscript Houtside Hdry Hrun. split.
  { symmetry. apply join_plain; [exact Hscript | vm_compute; reflexivity]. }
  destruct (respects_run files_untouched _ _ _ _ (dry_run_writes_no_file w cfg Hdry) Hrun)
    as (Hfiles & _ & Hsub).
  pose proof (respects_run (dirs_keep_off cfg) _ _ _ _ (main_keep_off cfg Houtside w) Hrun)
    as Hoff.
  unfold loadProcessed. rewrite Hfiles.
  destruct (files (fs st) !! processedFile cfg); [done|].
  destruct (decide (processedFile cfg ∈ dirs (fs st))) as [Hin|Hout].
  - rewrite !bool_decide_true; [done | done | by apply Hsub].
  - rewrite !bool_decide_false; [done | done | intros H; by apply Hout, Hoff].
Qed.

Lemma dry_run_not_persisted_witness :
  let w := world_sample td_sample in
  loadProcessed w (cfg_sample true) (fs (main w (cfg_sample true) st_sample).2)
  = loadProcessed w (cfg_sample true) (fs st_sample).
Proof.
  intros w.
  apply (dry_run_not_persisted w (cfg_sample true) st_sample
           (main w (cfg_sample true) st_sample).1
           (main w (cfg_sample true) st_sample).2).
  - vm_compute. reflexivity.
  - vm_compute. reflexivity.
  - split; [discriminate|]. apply (bool_decide_unpack _). vm_compute. exact I.
  - reflexivity.
  - apply surjective_pairing.
Defined.

(** With the vault below the path of that file, the dry run itself puts
    a directory in the file's place, and the next start fails where it
    loaded the empty set before. *)
Example dry_run_blocks_marker_file :
  let cfg := mkConfig "/scripts/.processed-xeets.json/vault" "/scripts"
               double_0_7 "gemini" true true double_0_6 in
  let w := world_sample td_sample in
  let st := mkState (mkFS ∅ {[ "/scripts" ]} ∅) ∅ 0 in
  loadProcessed w cfg (fs st) = Ok ∅
  /\ loadProcessed w cfg (fs (main w cfg st).2) = Throw "EISDIR".
Proof. split; vm_compute; reflexivity. Qed.

End Persistence.

(** ** Writing the log *)

Section LogWriting.

Lemma slice_to_from n s : slice_to n s +:+ slice_from n s = s.
Proof.
  revert n. induction s as [|c r IH]; intros [|n]; try done.
  cbn [slice_to slice_from]. by rewrite app_cons, IH.
Qed.

Lemma slice_to_length n s : String.length (slice_to n s) = Nat.min n (String.length s).
Proof.
  revert n. induction s as [|c r IH]; intros [|n]; try done.
  cbn [slice_to String.length]. by rewrite IH.
Qed.

Lemma slice_units_keeps inside n s :
  no_astral s = true ->
  (slice_units inside n s).1 +:+ (slice_units inside n s).2 = s.
Proof.
  revert inside n. induction s as [|c r IH]; intros inside n H; [done|].
  cbn [no_astral] in H. apply andb_prop in H as [Hc Hr]. apply negb_true_iff in Hc.
  cbn [slice_units]. rewrite Hc.
  destruct (is_continuation c).
  - destruct (inside || (0 <? n)); [|done].
    specialize (IH inside n Hr). destruct (slice_units inside n r) as [a b].
    cbn [fst snd] in *. by rewrite app_cons, IH.
  - destruct n as [|n]; [done|].
    specialize (IH (128 <=? nat_of_ascii c) n Hr).
    destruct (slice_units _ n r) as [a b].
    cbn [fst snd] in *. by rewrite app_cons, IH.
Qed.

Lemma slice_units_ascii_prefix n s :
  all_ascii (slice_to n s) = true ->
  slice_units false n s = (slice_to n s, slice_from n s).
Proof.
  revert s. induction n as [|n IH]; intros s H.
  - rewrite slice_units_zero. by destruct s.
  - destruct s as [|c r]; [done|]. cbn [slice_to slice_from] in *.
    change (all_ascii (String c (slice_to n r)))
      with ((nat_of_ascii c <? 128) && all_ascii (slice_to n r)) in H.
    apply andb_prop in H as [Hc Hr].
    by rewrite slice_units_ascii, (IH r Hr) by done.
Qed.

(** X19.  The splice keeps the old log when it has no character outside
    the Basic Multilingual Plane: the old text stays, in order, around
    the entry.  When the log has no separator and starts with four
    ASCII characters the splice point is behind them, or the end of a
    shorter ASCII log. *)
Theorem entry_is_spliced (logContent entry : string) :
  (no_astral logContent = true ->
   exists before after,
     logContent = before +:+ after
     /\ insertEntry logContent entry = before +:+ entry +:+ after)
  /\ ((forall pre post, logContent <> pre +:+ separator +:+ post) ->
      all_ascii (slice_to 4 logContent) = true ->
      insertEntry logContent entry
      = slice_to 4 logContent +:+ entry +:+ slice_from 4 logContent).
Proof.
  split.
  - intros Hb. unfold insertEntry.
    pose proof (slice_units_keeps false
                  (Z.to_nat (indexOf_units separator logContent + 5)) logContent Hb) as H.
    destruct (slice_units false _ logContent) as [a b]. cbn [fst snd] in H.
    by exists a, b.
  - intros Hno Hascii. unfold insertEntry, indexOf_units.
    destruct (indexOf_nonneg_or_minus1 separator logContent) as [Hm | Hpos].
    + rewrite Hm. cbn [Z.ltb Z.compare].
      change (Z.to_nat (-1 + 5)) with 4.
      by rewrite (slice_units_ascii_prefix 4 logContent Hascii).
    + destruct (indexOf_sound separator logContent Hpos) as (pre & post & E & _).
      by destruct (Hno pre post).
Qed.

(** A character outside the Basic Multilingual Plane that the splice
    point falls into is lost: each half of its surrogate pair is
    written as U+FFFD. *)
Example astral_character_cut :
  let face := String (ascii_of_nat 240) (String (ascii_of_nat 159)
                (String (ascii_of_nat 152) (String (ascii_of_nat 128) ""))) in
  insertEntry ("abc" +:+ face +:+ "def") "<entry>"
  = "abc" +:+ replacement +:+ "<entry>" +:+ replacement +:+ "def".
Proof. reflexivity. Qed.

(** X20.  [logResult] touches nothing but the log file: every other
    file, the directories and the processed set are as before, whether
    it returns or throws; in a dry run the log file is untouched too. *)
Theorem logResult_touches_only_log (w : World) (cfg : Config) (td : TweetData)
    (shot : Screenshot) (notePath : string) (st : State) :
  only_file_touched (logPath cfg) st (logResult w cfg td shot notePath st).2
  /\ (dryRun cfg = true -> fs (logResult w cfg td shot notePath st).2 = fs st).
Proof.
  unfold logResult, bind, now, existsSync, readFileSync, lift, tags_joined,
    writeFileSync, ret, only_file_touched.
  fold (logPath cfg). cbn [fs files dirs denied processedScreenshots ticks].
  destruct (files (fs st) !! logPath cfg) as [content|] eqn:E; cbn;
    rewrite ?E; cbn;
    repeat case_bool_decide; cbn; rewrite ?E; cbn;
    destruct (tags td); cbn; destruct (dryRun cfg); cbn;
    repeat case_bool_decide; cbn;
    (split; [split; [intros q Hq; by rewrite ?lookup_insert_ne | done] | done]).
Qed.

End LogWriting.

(** ** The items counted as processed *)

Section Counted.

(** When the [try] block returns, the item has its marker. *)
Lemma tryBlock_marks w cfg shot st b st' :
  tryBlock w cfg shot st = (Ok b, st') -> has_marker (filename shot) st'.
Proof.
  intros H. pose proof (tryBlock_counted _ _ _ _ _ _ H) as ->.
  rewrite tryBlock_split in H. unfold bind at 1 in H.
  destruct (beforeMarking w cfg shot st) as [[tr|e] st1]; [|done].
  destruct (saved tr.2 || dryRun cfg).
  - unfold bind in H.
    pose proof (markAsProcessed_marks w cfg (filename shot) st1) as Hm.
    destruct (markAsProcessed w cfg (filename shot) st1) as [[[]|e] st2]; [|done].
    cbn in H. by injection H as <-.
  - done.
Qed.

Lemma processAll_marks w cfg shots c st c' st' :
  processAll w cfg shots c st = (Ok c', st') ->
  exists counted,
    sublist counted shots
    /\ processed c' = processed c + length counted
    /\ failed c' + length counted = failed c + length shots
    /\ Forall (fun s => has_marker (filename s) st') counted
    /\ (failed c' = failed c -> counted = shots).
Proof.
  revert c st. induction shots as [|shot rest IH]; intros c st H.
  - injection H as <- <-. exists []. repeat split; simpl; try lia; constructor.
  - cbn [processAll] in H. unfold bind at 1 in H.
    unfold processOne, try_catch, bind at 1 in H.
    destruct (tryBlock w cfg shot st) as [[b|e] st1] eqn:E; cbn in H.
    + rewrite (tryBlock_counted _ _ _ _ _ _ E) in H.
      destruct (IH _ _ H) as (counted & Hsub & Hp & Hf & Hall & Heq).
      cbn [processed failed] in Hp, Hf, Heq.
      exists (shot :: counted). split; [by apply sublist_skip|].
      split; [simpl; lia|]. split; [simpl; lia|]. split.
      * constructor; [|exact Hall].
        apply (respects_run _ _ _ _ _ (processAll_keeps (filename shot) w cfg rest _) H).
        by apply tryBlock_marks in E.
      * intros Hsame. by rewrite (Heq Hsame).
    + destruct (IH _ _ H) as (counted & Hsub & Hp & Hf & Hall & Heq).
      cbn [processed failed] in Hp, Hf, Heq.
      exists counted. split; [by apply sublist_cons|].
      split; [exact Hp|]. split; [simpl; lia|]. split; [exact Hall|].
      intros Hsame. apply sublist_length in Hsub. simpl in Hf. lia.
Qed.

(** X21.  At the end of a run the items counted as processed are a
    sub-sequence of the offered ones, as many as the counter says, and
    each of them has its marker; when nothing failed, every offered item
    has its marker. *)
Theorem counted_items_are_marked (w : World) (cfg : Config) (st : State)
    (shots : list Screenshot) (st1 : State) (c : Counters) (st' : State) :
  findNewScreenshots cfg st = (Ok shots, st1) ->
  main w cfg st = (Ok (Some c), st') ->
  (exists counted,
     sublist counted shots
     /\ length counted = processed c
     /\ Forall (fun s => has_marker (filename s) st') counted)
  /\ (failed c = 0 -> Forall (fun s => has_marker (filename s) st') shots).
Proof.
  intros Hscan Hmain. unfold main, bind at 1 in Hmain. rewrite Hscan in Hmain.
  destruct (length shots =? 0)%nat; [done|].
  unfold bind in Hmain.
  destruct (processAll w cfg shots (mkCounters 0 0) st1) as [[c1|e] st2] eqn:E; [|done].
  injection Hmain as <- <-.
  destruct (processAll_marks _ _ _ _ _ _ _ E) as (counted & Hsub & Hp & Hf & Hall & Heq).
  cbn [processed failed] in Hp, Hf, Heq. split.
  - exists counted. split; [exact Hsub|]. split; [lia | exact Hall].
  - intros H0. rewrite <- (Heq H0). exact Hall.
Qed.

Lemma counted_items_are_marked_witness :
  Forall (fun s => has_marker (filename s)
            (main (world_sample td_sample) (cfg_sample false) st_sample).2)
    (match (findNewScreenshots (cfg_sample false) st_sample).1 with
     | Ok l => l
     | Throw _ => []
     end).
Proof.
  refine (proj2 (counted_items_are_marked (world_sample td_sample) (cfg_sample false)
                   st_sample _ (findNewScreenshots (cfg_sample false) st_sample).2
                   (mkCounters 2 0)
                   (main (world_sample td_sample) (cfg_sample false) st_sample).2 _ _) _).
  - vm_compute. reflexivity.
  - vm_compute. reflexivity.
  - reflexivity.
Defined.

End Counted.

(** ** Fenced answers *)

Section Fences.

Lemma open_fence_match_plain c r :
  is_backtick c = false -> open_fence_match (String c r) = None.
Proof. unfold open_fence_match, is_backtick. cbn [startsWith]. by intros ->. Qed.

Lemma remove_close_fence_cons c r :
  remove_close_fence (String c r)
  = if bool_decide (String c r = "```") || bool_decide (String c r = "```" +:+ nl)
    then "" else String c (remove_close_fence r).
Proof. reflexivity. Qed.

Lemma not_fence_plain c r :
  is_backtick c = false ->
  bool_decide (String c r = "```") || bool_decide (String c r = "```" +:+ nl) = false.
Proof.
  unfold is_backtick. intros Hc.
  rewrite !bool_decide_false; [done| |]; intros [= -> _]; done.
Qed.

Lemma not_fence_long s :
  4 < String.length s ->
  bool_decide (s = "```") || bool_decide (s = "```" +:+ nl) = false.
Proof.
  intros Hlen. rewrite !bool_decide_false; [done| |]; intros ->; simpl in Hlen; lia.
Qed.

(** Text without backticks, closed by a fence: no opening fence is
    found, and the closing fence is cut off. *)
Lemma remove_open_body body :
  no_backtick body = true ->
  remove_open_fences_from 0 (body +:+ "```") = body +:+ "```".
Proof.
  induction body as [|c r IH]; [reflexivity|].
  cbn [no_backtick]. intros [Hc Hr]%andb_prop. apply negb_true_iff in Hc.
  rewrite app_cons. cbn [remove_open_fences_from].
  rewrite open_fence_match_plain by done. by rewrite IH.
Qed.

Lemma remove_close_body body :
  no_backtick body = true -> remove_close_fence (body +:+ "```") = body.
Proof.
  induction body as [|c r IH]; [reflexivity|].
  cbn [no_backtick]. intros [Hc Hr]%andb_prop. apply negb_true_iff in Hc.
  rewrite app_cons, remove_close_fence_cons, not_fence_plain by done.
  by rewrite IH.
Qed.

Lemma startsWith_jso_fence body :
  no_backtick body = true ->
  startsWith "jso" body = false -> startsWith "jso" (body +:+ "```") = false.
Proof.
  destruct body as [|c1 [|c2 [|c3 r]]]; try done; rewrite ?app_cons; cbn;
    intros _ H; by repeat (destruct (Ascii.eqb _ _); try done).
Qed.

(** X22.  An answer in a fence tagged [json] is unwrapped: for a body
    without backticks, what goes to [JSON.parse] is the body. *)
Theorem tagged_fence_unwrapped (body : string) :
  no_backtick body = true ->
  unwrap_fences ("```json" +:+ nl +:+ body +:+ "```") = body.
Proof.
  intros Hb. unfold unwrap_fences, remove_open_fences, nl.
  rewrite !app_cons, app_empty_l. cbn [startsWith Ascii.eqb Bool.eqb andb].
  cbn [remove_open_fences_from].
  replace (open_fence_match _) with (Some 8).
  - cbn [remove_open_fences_from].
    rewrite ?app_empty_l, remove_open_body by done. by apply remove_close_body.
  - unfold open_fence_match, nl. cbn. reflexivity.
Qed.

Lemma tagged_fence_unwrapped_witness :
  unwrap_fences ("```json" +:+ nl +:+ ("{}" +:+ nl) +:+ "```") = "{}" +:+ nl.
Proof. apply (tagged_fence_unwrapped ("{}" +:+ nl)). reflexivity. Defined.

(** X23.  A fence without the tag is only half unwrapped: when the text
    behind the opening backticks does not go on with [jso], the closing
    fence is cut off and the opening one stays, so what goes to
    [JSON.parse] still begins with the three backticks. *)
Theorem untagged_fence_stays (body : string) :
  no_backtick body = true ->
  startsWith "jso" body = false ->
  unwrap_fences ("```" +:+ body +:+ "```") = "```" +:+ body.
Proof.
  intros Hb Hj. destruct body as [|c r]; [reflexivity|].
  pose proof Hb as Hb'. cbn [no_backtick] in Hb'.
  apply andb_prop in Hb' as [Hc Hr]. apply negb_true_iff in Hc.
  assert (remove_open_fences ("```" +:+ String c r +:+ "```")
          = "```" +:+ String c r +:+ "```") as Hopen.
  { unfold remove_open_fences. rewrite !app_cons, app_empty_l.
    cbn [remove_open_fences_from].
    assert (forall s, open_fence_match (String "`" (String "`" (String c s))) = None)
      as H2.
    { intros s. unfold open_fence_match. cbn [startsWith].
      unfold is_backtick in Hc. rewrite Hc. by rewrite !andb_false_r. }
    assert (forall s, open_fence_match (String "`" (String c s)) = None) as H1.
    { intros s. unfold open_fence_match. cbn [startsWith].
      unfold is_backtick in Hc. rewrite Hc. by rewrite !andb_false_r. }
    assert (open_fence_match
              (String "`" (String "`" (String "`" (String c (r +:+ "```"))))) = None)
      as H3.
    { unfold open_fence_match.
      pose proof (startsWith_jso_fence _ Hb Hj) as H. rewrite app_cons in H.
      cbn [startsWith Ascii.eqb Bool.eqb andb] in *. by rewrite H. }
    rewrite H3, H2, H1. pose proof (remove_open_body _ Hb) as H.
    rewrite app_cons in H. cbn [remove_open_fences_from] in H.
    by rewrite H. }
  unfold unwrap_fences. rewrite Hopen, !app_cons, app_empty_l.
  cbn [startsWith Ascii.eqb Bool.eqb andb].
  rewrite !remove_close_fence_cons.
  rewrite !not_fence_long by (simpl; rewrite app_length'; simpl; lia).
  rewrite <- remove_close_fence_cons, <- app_cons.
  by rewrite remove_close_body.
Qed.

Lemma untagged_fence_stays_witness :
  unwrap_fences ("```" +:+ (nl +:+ "{}" +:+ nl) +:+ "```") = "```" +:+ nl +:+ "{}" +:+ nl.
Proof. apply (untagged_fence_stays (nl +:+ "{}" +:+ nl)); reflexivity. Defined.

End Fences.
